(** * jhin: the Python FastAPI generator (src/generators/python-fastapi.ts)

    A shallow embedding of the schema resolution, type mapping, naming and
    operation grouping logic of the generator, and of the emission pipeline
    that drives them, followed by the properties proved about them.

    Conventions of the embedding.
    - JavaScript strings are sequences of code units; they are modelled by
      [string], whose characters are 8-bit code units.  The character classes
      the generator uses ([\w], [\d]) are ASCII classes, and every operation
      on names works code unit by code unit.
    - The parsed API description is an untyped tree ([api: any]); it is
      modelled by [value].  An object is the list of its own enumerable
      properties in the order [Object.entries] yields them.  Where the
      generator indexes a map it fills itself with a name taken from the
      description ([pathsByTag[tag]], [processedProperties[sanitizedName]],
      [generatorRegistry[language]]), the members the map inherits from
      [Object.prototype] are modelled.  The objects of the description are
      read through their own properties: the fixed names the generator
      reads are not inherited names, and a reference name is looked up
      among the own properties of [components].
    - Numbers are integers ([Z]); the generator never computes with them.
    - A JavaScript exception is the [Throw] outcome of [result]; recursion
      that the source does not bound is bounded by a fuel argument, and
      running out of fuel is the separate outcome [Diverge].
    - The file system, the template loader and the path library are the
      fields of [env]; what a run does to its surroundings is recorded in
      [world].

    Part I holds the embedding, the notions used in the statements and the
    concrete inputs of the examples; Part II holds the properties, in the
    order NameSanitizer, TypeMapper, SchemaResolver, OperationGrouper,
    property processing, EmissionPipeline. *)

From Stdlib Require Import String Ascii List ZArith NArith Bool Arith Lia.
From Stdlib Require Import Permutation Decimal DecimalString.
Import ListNotations.
Open Scope string_scope.

(* ================================================================== *)
(** * Part I: the embedding *)
(* ================================================================== *)

(** ** Strings *)

Module Str.

Definition code (c : ascii) : N := N_of_ascii c.

(** [\d] *)
Definition is_digit (c : ascii) : bool :=
  (48 <=? code c)%N && (code c <=? 57)%N.

(** [\w], that is [A-Za-z0-9_] *)
Definition is_word (c : ascii) : bool :=
  is_digit c
  || ((65 <=? code c)%N && (code c <=? 90)%N)
  || ((97 <=? code c)%N && (code c <=? 122)%N)
  || (code c =? 95)%N.

Fixpoint map (f : ascii -> ascii) (s : string) : string :=
  match s with
  | EmptyString => EmptyString
  | String c s' => String (f c) (map f s')
  end.

Fixpoint all (p : ascii -> bool) (s : string) : bool :=
  match s with
  | EmptyString => true
  | String c s' => p c && all p s'
  end.

Definition head (s : string) : option ascii :=
  match s with
  | EmptyString => None
  | String c _ => Some c
  end.

Fixpoint last (s : string) : option ascii :=
  match s with
  | EmptyString => None
  | String c EmptyString => Some c
  | String _ s' => last s'
  end.

(** [s.toLowerCase()] on ASCII letters *)
Definition lower_char (c : ascii) : ascii :=
  if ((65 <=? code c)%N && (code c <=? 90)%N)
  then ascii_of_N (code c + 32) else c.

Definition toLowerCase (s : string) : string := map lower_char s.

(** [s.split(sep)] for a one-character separator; the result is never
    empty: the empty string splits into one empty piece. *)
Fixpoint split (sep : ascii) (s : string) : list string :=
  match s with
  | EmptyString => [EmptyString]
  | String c s' =>
      if Ascii.eqb c sep then EmptyString :: split sep s'
      else match split sep s' with
           | [] => [String c EmptyString]
           | piece :: rest => String c piece :: rest
           end
  end.

(** [s.includes(needle)] *)
Fixpoint includes (needle s : string) : bool :=
  String.prefix needle s
  || match s with
     | EmptyString => false
     | String _ s' => includes needle s'
     end.

(** [s.replace(/pat/g, rep)] for a literal, non-empty pattern: matches
    are found left to right and do not overlap.  [skip] counts the
    characters of a match that are still to be dropped. *)
Fixpoint replace_from (pat rep : string) (skip : nat) (s : string) : string :=
  match s with
  | EmptyString => EmptyString
  | String c s' =>
      match skip with
      | S k => replace_from pat rep k s'
      | O =>
          if String.prefix pat s
          then rep ++ replace_from pat rep (String.length pat - 1) s'
          else String c (replace_from pat rep 0 s')
      end
  end.

Definition replace_all (pat rep s : string) : string :=
  replace_from pat rep 0 s.

(** the characters of a string, each as a one-character string *)
Fixpoint chars (s : string) : list string :=
  match s with
  | EmptyString => []
  | String c s' => String c EmptyString :: chars s'
  end.

Definition of_nat (n : nat) : string :=
  NilZero.string_of_uint (Nat.to_uint n).

Definition of_N (n : N) : string :=
  NilZero.string_of_uint (N.to_uint n).

Definition of_Z (z : Z) : string :=
  NilZero.string_of_int (Z.to_int z).

End Str.

(** ** NameSanitizer *)

(** A set of Python reserved words to avoid naming collisions. *)
Definition PYTHON_RESERVED_WORDS : list string :=
  [ "and"; "as"; "assert"; "break"; "class"; "continue"; "def"; "del"; "elif";
    "else"; "except"; "False"; "finally"; "for"; "from"; "global"; "if"; "import";
    "in"; "is"; "lambda"; "None"; "nonlocal"; "not"; "or"; "pass"; "raise";
    "return"; "True"; "try"; "while"; "with"; "yield" ].

(** [PYTHON_RESERVED_WORDS.has(s)] *)
Definition is_reserved (s : string) : bool :=
  existsb (String.eqb s) PYTHON_RESERVED_WORDS.

(** [/^\d/.test(s)] *)
Definition starts_with_digit (s : string) : bool :=
  match Str.head s with
  | Some c => Str.is_digit c
  | None => false
  end.

(** [name.replace(/[^\w]/g, '_')] *)
Definition replace_non_word (name : string) : string :=
  Str.map (fun c => if Str.is_word c then c else "_"%char) name.

(** Sanitizes a string into a valid Python identifier, avoiding reserved
    words and illegal characters. *)
Definition sanitizeName (name : string) : string :=
  let safeName := replace_non_word name in
  let safeName := if is_reserved safeName then safeName ++ "_" else safeName in
  let safeName := if starts_with_digit safeName then "_" ++ safeName else safeName in
  safeName.

(** Generates an enum class name for a property that has an enum definition. *)
Definition getEnumName (schemaName propName : string) : string :=
  sanitizeName (schemaName ++ "_" ++ propName ++ "_Enum").

(** Decodes HTML entities (e.g., &quot;, &amp;) into normal characters. *)
Definition decodeHtmlEntities (str : string) : string :=
  Str.replace_all "&amp;" "&"
    (Str.replace_all "&quot;" (String (ascii_of_nat 34) EmptyString) str).


(** ** Outcomes of a computation *)

Inductive error : Type :=
| TypeError (msg : string)   (* raised by the language itself *)
| Error (msg : string).      (* raised by a collaborator: a template, the file system *)

(** [String(err)] *)
Definition error_to_string (e : error) : string :=
  match e with
  | TypeError msg => "TypeError: " ++ msg
  | Error msg => "Error: " ++ msg
  end.

Inductive result (A : Type) : Type :=
| Ok (a : A)
| Throw (e : error)
| Diverge.

Arguments Ok {A} a.
Arguments Throw {A} e.
Arguments Diverge {A}.

Definition bind {A B : Type} (r : result A) (k : A -> result B) : result B :=
  match r with
  | Ok a => k a
  | Throw e => Throw e
  | Diverge => Diverge
  end.

Declare Scope result_scope.
Delimit Scope result_scope with result.
Notation "x <- e ;; k" := (bind e (fun x => k))
  (at level 100, e at next level, right associativity) : result_scope.
Open Scope result_scope.

(** run [f] on each element in turn, stopping at the first that does not
    return *)
Fixpoint mapM {A B : Type} (f : A -> result B) (l : list A) : result (list B) :=
  match l with
  | [] => Ok []
  | x :: tl => y <- f x ;; ys <- mapM f tl ;; Ok (y :: ys)
  end.

(** a [for ... of] loop that threads an accumulator *)
Fixpoint foldM {A B : Type} (f : A -> B -> result A) (l : list B) (acc : A) : result A :=
  match l with
  | [] => Ok acc
  | x :: tl => acc' <- f acc x ;; foldM f tl acc'
  end.

(** ** Untyped values and the operations of the language on them *)

#[warnings="-register-all"]
Inductive value : Type :=
| VUndef
| VNull
| VBool (b : bool)
| VNum (n : Z)
| VStr (s : string)
| VArr (elems : list value)
| VObj (props : list (string * value)).

Module Js.

Section Lookup.
Context {A : Type}.

(** own property lookup *)
Fixpoint assoc (k : string) (kv : list (string * A)) : option A :=
  match kv with
  | [] => None
  | (k', v) :: tl => if String.eqb k' k then Some v else assoc k tl
  end.

Definition has_key (k : string) (kv : list (string * A)) : bool :=
  match assoc k kv with Some _ => true | None => false end.

Fixpoint replace (k : string) (v : A) (kv : list (string * A)) : list (string * A) :=
  match kv with
  | [] => []
  | (k', v') :: tl =>
      if String.eqb k' k then (k', v) :: tl else (k', v') :: replace k v tl
  end.
End Lookup.

(** An array index is the canonical decimal form of an integer below
    2^32 - 1.  Own properties with such keys are enumerated first, in
    ascending order; the other keys follow in insertion order. *)
Definition array_index (k : string) : option N :=
  match NilEmpty.uint_of_string k with
  | Some u =>
      let n := N.of_uint u in
      if String.eqb (Str.of_N n) k && (n <? 4294967295)%N then Some n else None
  | None => None
  end.

Section Assign.
Context {A : Type}.

(** where a new array-index key goes: before the first key that is a
    larger index or not an index at all *)
Fixpoint insert_index (i : N) (k : string) (v : A) (kv : list (string * A))
  : list (string * A) :=
  match kv with
  | [] => [(k, v)]
  | (k', v') :: tl =>
      match array_index k' with
      | Some j => if (i <? j)%N then (k, v) :: kv
                  else (k', v') :: insert_index i k v tl
      | None => (k, v) :: kv
      end
  end.

(** [o[k] = v] on the own properties [kv] of [o] *)
Definition obj_set (kv : list (string * A)) (k : string) (v : A)
  : list (string * A) :=
  if has_key k kv then replace k v kv
  else match array_index k with
       | Some i => insert_index i k v kv
       | None => kv ++ [(k, v)]
       end.

(** the object built by assigning the entries in order to an empty
    object *)
Definition assign_all (kv : list (string * A)) (entries : list (string * A))
  : list (string * A) :=
  fold_left (fun o e => obj_set o (fst e) (snd e)) entries kv.
End Assign.

(** [if (v)], [!v], [v || w], [v ? a : b] *)
Definition truthy (v : value) : bool :=
  match v with
  | VUndef | VNull => false
  | VBool b => b
  | VNum n => negb (n =? 0)%Z
  | VStr s => negb (String.eqb s EmptyString)
  | VArr _ | VObj _ => true
  end.

(** [typeof v] *)
Definition typeof (v : value) : string :=
  match v with
  | VUndef => "undefined"
  | VNull | VArr _ | VObj _ => "object"
  | VBool _ => "boolean"
  | VNum _ => "number"
  | VStr _ => "string"
  end.

(** [v === "lit"] *)
Definition is_str (v : value) (lit : string) : bool :=
  match v with
  | VStr s => String.eqb s lit
  | _ => false
  end.

Definition isArray (v : value) : bool :=
  match v with VArr _ => true | _ => false end.

Fixpoint indexed_from {A : Type} (i : nat) (l : list A) : list (string * A) :=
  match l with
  | [] => []
  | x :: tl => (Str.of_nat i, x) :: indexed_from (S i) tl
  end.

(** the elements of an array or the characters of a string under their
    indices *)
Definition indexed {A : Type} (l : list A) : list (string * A) := indexed_from 0 l.

Definition nth_N (l : list value) (i : N) : value := nth (N.to_nat i) l VUndef.

(** [v[k]], [v.k]: reading a property.  Reading from [undefined] or
    [null] throws. *)
Definition get (v : value) (k : string) : result value :=
  match v with
  | VUndef => Throw (TypeError ("Cannot read properties of undefined (reading '" ++ k ++ "')"))
  | VNull => Throw (TypeError ("Cannot read properties of null (reading '" ++ k ++ "')"))
  | VBool _ | VNum _ => Ok VUndef
  | VStr s =>
      match array_index k with
      | Some i => Ok (nth_N (List.map VStr (Str.chars s)) i)
      | None => if String.eqb k "length" then Ok (VNum (Z.of_nat (String.length s)))
                else Ok VUndef
      end
  | VArr l =>
      match array_index k with
      | Some i => Ok (nth_N l i)
      | None => if String.eqb k "length" then Ok (VNum (Z.of_nat (List.length l)))
                else Ok VUndef
      end
  | VObj kv =>
      match assoc k kv with
      | Some x => Ok x
      | None => Ok VUndef
      end
  end.

(** what an object spread [{...v}] copies *)
Definition spread_entries (v : value) : list (string * value) :=
  match v with
  | VObj kv => kv
  | VArr l => indexed l
  | VStr s => indexed (List.map VStr (Str.chars s))
  | VUndef | VNull | VBool _ | VNum _ => []
  end.

(** [Object.entries(v)] *)
Definition entries (v : value) : result (list (string * value)) :=
  match v with
  | VUndef | VNull => Throw (TypeError "Cannot convert undefined or null to object")
  | _ => Ok (spread_entries v)
  end.

(** [for (const x of v)], [[...v]] *)
Definition iterate (v : value) : result (list value) :=
  match v with
  | VArr l => Ok l
  | VStr s => Ok (List.map VStr (Str.chars s))
  | _ => Throw (TypeError "value is not iterable")
  end.

(** [o.k = x].  The generator only assigns to objects it has just read a
    property map from; assigning to anything else is reported as an
    error. *)
Definition set (o : value) (k : string) (x : value) : result value :=
  match o with
  | VObj kv => Ok (VObj (obj_set kv k x))
  | _ => Throw (TypeError ("Cannot create property '" ++ k ++ "'"))
  end.

(** the property key a value denotes when used as [o[v]] (numbers print
    in plain decimal, as they do below 10^21) *)
Fixpoint to_key (v : value) : string :=
  match v with
  | VUndef => "undefined"
  | VNull => "null"
  | VBool true => "true"
  | VBool false => "false"
  | VNum n => Str.of_Z n
  | VStr s => s
  | VArr l =>
      String.concat ","
        (List.map (fun x => match x with
                            | VUndef | VNull => EmptyString
                            | _ => to_key x
                            end) l)
  | VObj _ => "[object Object]"
  end.

(** equality of values as [Set] sees it.  Primitive values are compared
    by value.  Arrays and objects are compared structurally: the model
    has no object identity. *)
Fixpoint value_eqb (x y : value) : bool :=
  match x, y with
  | VUndef, VUndef => true
  | VNull, VNull => true
  | VBool a, VBool b => Bool.eqb a b
  | VNum a, VNum b => (a =? b)%Z
  | VStr a, VStr b => String.eqb a b
  | VArr a, VArr b =>
      (fix go (a b : list value) : bool :=
         match a, b with
         | [], [] => true
         | x :: a', y :: b' => value_eqb x y && go a' b'
         | _, _ => false
         end) a b
  | VObj a, VObj b =>
      (fix go (a b : list (string * value)) : bool :=
         match a, b with
         | [], [] => true
         | (k, x) :: a', (k', y) :: b' => String.eqb k k' && value_eqb x y && go a' b'
         | _, _ => false
         end) a b
  | _, _ => false
  end.

(** [Array.from(new Set(l))]: the first occurrence of each element, in
    order *)
Fixpoint dedup_from (seen : list value) (l : list value) : list value :=
  match l with
  | [] => []
  | x :: tl =>
      if existsb (value_eqb x) seen then dedup_from seen tl
      else x :: dedup_from (x :: seen) tl
  end.

Definition dedup (l : list value) : list value := dedup_from [] l.

(** nesting depth of a value *)
Fixpoint depth (v : value) : nat :=
  match v with
  | VArr l => S (fold_right (fun x n => Nat.max (depth x) n) 0 l)
  | VObj kv => S (fold_right (fun p n => Nat.max (depth (snd p)) n) 0 kv)
  | _ => 0
  end.

End Js.

Import Js.

(** ** Members inherited from [Object.prototype] *)

(** the names every object inherits from [Object.prototype]; a lookup
    [o[name]] of one of them finds the inherited member when [o] has no own
    property of that name *)
Definition object_prototype_members : list string :=
  [ "constructor"; "__defineGetter__"; "__defineSetter__"; "hasOwnProperty";
    "__lookupGetter__"; "__lookupSetter__"; "isPrototypeOf"; "propertyIsEnumerable";
    "toString"; "valueOf"; "__proto__"; "toLocaleString" ].

(** [o[k] = v] on the own properties [kv] of a map the generator created
    as [{}].  An assignment to [__proto__] runs the setter the map
    inherits: it replaces the prototype of the map and stores no own
    property, so [Object.entries] never lists it. *)
Definition assign_property {A : Type} (kv : list (string * A)) (k : string) (v : A)
  : list (string * A) :=
  if String.eqb k "__proto__" then kv else obj_set kv k v.

(** the last piece of [ref.split('/')]; a value without a [split] method
    (anything that is not a string) throws *)
Definition last_segment (ref : value) : result string :=
  match ref with
  | VStr s => Ok (List.last (Str.split "/" s) EmptyString)
  | _ => Throw (TypeError "split is not a function")
  end.

(** ** TypeMapper *)

(** Deduces the Python type from an OpenAPI type/format/items/reference
    definition.  The recursion descends into [items]; [fuel] bounds the
    number of nested calls. *)
Fixpoint getPythonType_rec (fuel : nat) (openapiType format items ref : value)
  : result string :=
  match fuel with
  | O => Diverge
  | S fuel' =>
      if truthy ref then
        modelName <- last_segment ref ;;
        Ok (sanitizeName modelName)
      else if negb (truthy openapiType) then Ok "Any"
      else if is_str openapiType "integer" then Ok "int"
      else if is_str openapiType "number" then
        (if is_str format "float" || is_str format "double" then Ok "float"
         else Ok "float")
      else if is_str openapiType "boolean" then Ok "bool"
      else if is_str openapiType "string" then
        (if is_str format "date" then Ok "datetime.date"
         else if is_str format "date-time" then Ok "datetime.datetime"
         else if is_str format "uuid" then Ok "uuid.UUID"
         else if is_str format "email" then Ok "EmailStr"
         else if is_str format "uri" || is_str format "url" then Ok "AnyUrl"
         else if is_str format "byte" || is_str format "binary" then Ok "bytes"
         else if is_str format "password" then Ok "SecretStr"
         else Ok "str")
      else if is_str openapiType "array" then
        childType <-
          (if truthy items then
             childRef <- get items "$ref" ;;
             itemType <- get items "type" ;;
             itemFormat <- get items "format" ;;
             itemItems <- get items "items" ;;
             getPythonType_rec fuel' itemType itemFormat itemItems childRef
           else Ok "Any") ;;
        Ok ("List[" ++ childType ++ "]")
      else if is_str openapiType "object" then Ok "Dict[str, Any]"
      else Ok "Any"
  end.

(** Every nested call descends one level into [items], so the nesting depth
    of [items] plus two is always enough fuel (lemma
    [getPythonType_rec_returns]). *)
Definition getPythonType (openapiType format items ref : value) : result string :=
  getPythonType_rec (2 + depth items) openapiType format items ref.

(** ** SchemaResolver *)

(** Resolves a given $ref (e.g., "#/components/schemas/SomeSchema") to its
    actual schema from components. *)
Definition resolveRef (ref : value) (components : value) : result value :=
  name <- last_segment ref ;;
  get components name.

(** Merges additional schema properties/required fields into a base schema
    object.  The source updates [base] in place; here the updated [base] is
    returned. *)
Definition mergeInto (base extra : value) : result value :=
  extraProperties <- get extra "properties" ;;
  base <-
    (if truthy extraProperties then
       baseProperties <- get base "properties" ;;
       set base "properties"
         (VObj (assign_all [] (spread_entries baseProperties ++ spread_entries extraProperties)))
     else Ok base) ;;
  extraRequired <- get extra "required" ;;
  if truthy extraRequired then
    baseRequired <- get base "required" ;;
    old <- iterate baseRequired ;;
    new <- iterate extraRequired ;;
    set base "required" (VArr (dedup (old ++ new)))
  else Ok base.

(** the accumulator an [allOf] merge starts from *)
Definition empty_merged : value :=
  VObj [("type", VStr "object"); ("properties", VObj []); ("required", VArr [])].

(** the name a [oneOf] member contributes to the union *)
Definition union_member (sub : value) : result value :=
  ref <- get sub "$ref" ;;
  if truthy ref then
    name <- last_segment ref ;;
    Ok (VStr (sanitizeName name))
  else Ok (VStr "Any").

(** Merges or transforms schemas involving allOf or oneOf.  Returns a fully
    merged schema or an xOneOfUnion marker to indicate a union.  The source
    recursion follows references and is not bounded; [fuel] bounds the
    number of nested calls. *)
Fixpoint mergeComplexSchema (fuel : nat) (schema components : value) : result value :=
  match fuel with
  | O => Diverge
  | S fuel' =>
      allOf <- get schema "allOf" ;;
      if truthy allOf then
        subs <- iterate allOf ;;
        foldM (fun merged sub =>
                 ref <- get sub "$ref" ;;
                 if truthy ref then
                   resolved <- resolveRef ref components ;;
                   part <- mergeComplexSchema fuel' resolved components ;;
                   mergeInto merged part
                 else
                   part <- mergeComplexSchema fuel' sub components ;;
                   mergeInto merged part)
              subs empty_merged
      else
        oneOf <- get schema "oneOf" ;;
        if truthy oneOf then
          match oneOf with
          | VArr members =>
              names <- mapM union_member members ;;
              Ok (VObj [("xOneOfUnion", VArr names)])
          | _ => Throw (TypeError "schema.oneOf.map is not a function")
          end
        else Ok schema
  end.

(** ** Property processing (the entity build step) *)

Definition dquote : string := String (ascii_of_nat 34) EmptyString.

Definition quoted (s : string) : string := dquote ++ s ++ dquote.

(** the [regex] field: [r"<decoded pattern>"] when the schema has a pattern *)
Definition regexLiteral (pattern : value) : result value :=
  if truthy pattern then
    match pattern with
    | VStr p => Ok (VStr ("r" ++ quoted (decodeHtmlEntities p)))
    | _ => Throw (TypeError "str.replace is not a function")
    end
  else Ok VUndef.

(** the [default] field: dispatch on [typeof defVal] *)
Definition defaultLiteral (defVal : value) : value :=
  match defVal with
  | VBool b => VStr (if b then "True" else "False")
  | VStr s => VStr (quoted s)
  | _ => defVal
  end.

(** the [example] field: dispatch on [typeof ps.example] *)
Definition exampleLiteral (example : value) : value :=
  match example with
  | VStr s => VStr (quoted s)
  | _ => example
  end.

(** one iteration of the loop over [Object.entries(sch.properties)]: the
    key and the record stored in [processedProperties] *)
Definition processProperty (propName : string) (ps : value) : result (string * value) :=
  let sanitizedName := sanitizeName propName in
  openapiType <- get ps "type" ;;
  format <- get ps "format" ;;
  items <- get ps "items" ;;
  ref <- get ps "$ref" ;;
  pyType <- getPythonType openapiType format items ref ;;
  pattern <- get ps "pattern" ;;
  regex <- regexLiteral pattern ;;
  defVal <- get ps "default" ;;
  example <- get ps "example" ;;
  description <- get ps "description" ;;
  enum <- get ps "enum" ;;
  Ok (sanitizedName,
      VObj [ ("originalName", VStr propName);
             ("name", VStr sanitizedName);
             ("type", VStr pyType);
             ("default", defaultLiteral defVal);
             ("example", exampleLiteral example);
             ("regex", regex);
             ("description", if truthy description then description else VStr EmptyString);
             ("enum", enum) ]).

(** the [processedProperties] map of a schema whose [properties] is
    [properties] *)
Definition buildProcessedProperties (properties : value)
  : result (list (string * value)) :=
  props <- entries properties ;;
  foldM (fun processedProperties prop =>
           entry <- processProperty (fst prop) (snd prop) ;;
           Ok (assign_property processedProperties (fst entry) (snd entry)))
        props [].

(** ** EnumExtractor *)

(** Finds any enum definitions in the properties, creates an enum, and
    replaces the property type with that enum name.  The source rewrites the
    property records in place; here the rewritten map is returned next to
    the created enums. *)
Definition processEnums (schemaName : string) (processedProperties : list (string * value))
  : result (list value * list (string * value)) :=
  foldM (fun acc prop =>
           let '(createdEnums, updated) := acc in
           let '(propKey, ps) := prop in
           enum <- get ps "enum" ;;
           if truthy enum && isArray enum then
             let enumName := getEnumName schemaName propKey in
             ps' <- set ps "type" (VStr enumName) ;;
             Ok ((createdEnums ++ [VObj [("enumName", VStr enumName); ("values", enum)]])%list,
                 (updated ++ [(propKey, ps')])%list)
           else Ok (createdEnums, (updated ++ [(propKey, ps)])%list))
        processedProperties ([], []).

(** ** ImportCollector *)

(** [imports.add(line)] on a set kept in insertion order *)
Definition add_import (imports : list string) (line : string) : list string :=
  if existsb (String.eqb line) imports then imports else (imports ++ [line])%list.

Definition imports_for_type (imports : list string) (type : string) : list string :=
  let imports := if Str.includes "List[" type
                 then add_import imports "from typing import List" else imports in
  let imports := if Str.includes "Dict[" type
                 then add_import imports "from typing import Dict, Any" else imports in
  let imports := if Str.includes "AnyUrl" type
                 then add_import imports "from pydantic import AnyUrl" else imports in
  let imports := if Str.includes "EmailStr" type
                 then add_import imports "from pydantic import EmailStr" else imports in
  let imports := if Str.includes "SecretStr" type
                 then add_import imports "from pydantic import SecretStr" else imports in
  let imports := if Str.includes "datetime.date" type || Str.includes "datetime.datetime" type
                 then add_import imports "import datetime" else imports in
  let imports := if Str.includes "uuid.UUID" type
                 then add_import imports "import uuid" else imports in
  imports.

(** Gathers any needed imports based on property definitions that require
    specialized Python types. *)
Definition gatherImportsForProps (processedProperties : list (string * value))
  : result (list string) :=
  foldM (fun imports prop =>
           type <- get (snd prop) "type" ;;
           match type with
           | VStr t => Ok (imports_for_type imports t)
           | _ => Ok imports
           end)
        processedProperties [].

(** ** OperationGrouper *)

(** the operations the grouping loop does not skip: the negation of
    [!operation || typeof operation !== 'object'] *)
Definition is_operation_object (operation : value) : bool :=
  truthy operation && String.eqb (typeof operation) "object".

(** [((operation as any).tags || ['api'])[0]] *)
Definition operation_tag (operation : value) : result value :=
  declared <- get operation "tags" ;;
  let tags := if truthy declared then declared else VArr [VStr "api"] in
  get tags "0".

(** [{ path: pathUrl, method, operation }] *)
Definition group_member (pathUrl method : string) (operation : value) : value :=
  VObj [("path", VStr pathUrl); ("method", VStr method); ("operation", operation)].

(** the body of the inner loop: file one operation under its tag.  The
    test [!pathsByTag[tag]] also finds the members [pathsByTag] inherits:
    under such a name no list is created, and [push] is called on the
    inherited member, which has none. *)
Definition add_operation (pathsByTag : list (string * list value))
  (pathUrl method : string) (operation : value) : result (list (string * list value)) :=
  if negb (is_operation_object operation) then Ok pathsByTag
  else
    tag <- operation_tag operation ;;
    let key := to_key tag in
    match assoc key pathsByTag with
    | Some members =>
        Ok (obj_set pathsByTag key (members ++ [group_member pathUrl method operation])%list)
    | None =>
        if existsb (String.eqb key) object_prototype_members
        then Throw (TypeError "pathsByTag[tag].push is not a function")
        else Ok (obj_set pathsByTag key [group_member pathUrl method operation])
    end.

(** the two nested loops that fill [pathsByTag] *)
Definition groupOperations (paths : value) : result (list (string * list value)) :=
  pathItems <- entries paths ;;
  foldM (fun pathsByTag pathEntry =>
           operations <- entries (snd pathEntry) ;;
           foldM (fun pathsByTag opEntry =>
                    add_operation pathsByTag (fst pathEntry) (fst opEntry) (snd opEntry))
                 operations pathsByTag)
        pathItems [].

(** the members contributed by the operations of one path *)
Definition path_members (pathUrl : string) (operations : list (string * value))
  : list value :=
  List.map (fun opEntry => group_member pathUrl (fst opEntry) (snd opEntry))
           (List.filter (fun opEntry => is_operation_object (snd opEntry)) operations).

(** The members the grouping is expected to distribute: one per (path,
    method) pair whose operation node is an object, in iteration order. *)
Definition object_operations (paths : value) : result (list value) :=
  pathItems <- entries paths ;;
  perPath <- mapM (fun pathEntry =>
                     operations <- entries (snd pathEntry) ;;
                     Ok (path_members (fst pathEntry) operations))
                  pathItems ;;
  Ok (List.concat perPath).

(** ** EmissionPipeline *)

(** What the run has done to its surroundings so far: the directories it
    created, the files it wrote (oldest first) and the diagnostics it
    emitted (oldest first, as level and message; the time stamp and the
    colouring that [logMessage] adds are left out).  The two DEBUG traces
    that [mergeComplexSchema] emits while it resolves a schema are not
    recorded. *)
Record world : Type := World {
  dirs : list string;
  written : list (string * string);
  log : list (string * string)
}.

Definition template : Type := value -> result string.

(** The collaborators of the pipeline: the path library, the template
    loader and the file system.  A write or a directory creation either
    happens completely or raises an error and changes nothing. *)
Record env : Type := Env {
  path_join : string -> string -> string;
  loadTemplates : string -> result (string -> option template);
  write_fault : list (string * string) -> string -> string -> option error;
  mkdir_fault : list string -> string -> option error
}.

(** a computation that changes the [world] and returns, throws or
    diverges; the changes made before a throw stay *)
Definition M (A : Type) : Type := world -> result A * world.

Definition ret {A : Type} (a : A) : M A := fun w => (Ok a, w).

Definition lift {A : Type} (r : result A) : M A := fun w => (r, w).

Definition throw {A : Type} (e : error) : M A := fun w => (Throw e, w).

Definition bindM {A B : Type} (m : M A) (k : A -> M B) : M B :=
  fun w =>
    match m w with
    | (Ok a, w') => k a w'
    | (Throw e, w') => (Throw e, w')
    | (Diverge, w') => (Diverge, w')
    end.

(** [try { body } catch (err) { handler(err) }] *)
Definition try_catch {A : Type} (body : M A) (handler : error -> M A) : M A :=
  fun w =>
    match body w with
    | (Throw e, w') => handler e w'
    | outcome => outcome
    end.

Declare Scope run_scope.
Delimit Scope run_scope with run.
Notation "x <-- m ;; k" := (bindM m (fun x => k))
  (at level 100, m at next level, right associativity) : run_scope.
Notation "m ;;; k" := (bindM m (fun _ => k))
  (at level 100, right associativity) : run_scope.
Open Scope run_scope.

(** a [for ... of] loop whose body only acts on the world *)
Fixpoint forM {A : Type} (l : list A) (body : A -> M unit) : M unit :=
  match l with
  | [] => ret tt
  | x :: tl => body x ;;; forM tl body
  end.

Definition logMessage (level message : string) : M unit :=
  fun w => (Ok tt, World (dirs w) (written w) (log w ++ [(level, message)])).

(** the handler every artifact is wrapped in: report, then rethrow *)
Definition report (what : string) {A : Type} (err : error) : M A :=
  logMessage "ERROR" (what ++ ": " ++ error_to_string err) ;;;
  throw err.

Definition newline : string := String (ascii_of_nat 10) EmptyString.

(** the text of the aggregator file for the tags [Object.keys(pathsByTag)]:
    a header, one import per tag, a blank line, one registration per tag *)
Definition aggregatorContent (tags : list string) : string :=
  let content :=
    "from fastapi import APIRouter" ++ newline ++ newline
      ++ "router = APIRouter()" ++ newline in
  let content :=
    fold_left (fun content tag =>
                 let safeTag := Str.toLowerCase tag in
                 content ++ "from ." ++ safeTag ++ " import router as "
                   ++ safeTag ++ "_router" ++ newline)
              tags content in
  let content := content ++ newline in
  fold_left (fun content tag =>
               let safeTag := Str.toLowerCase tag in
               content ++ "router.include_router(" ++ safeTag ++ "_router)" ++ newline)
            tags content.

Section Pipeline.

Variable E : env.

Definition writeFileSync (file content : string) : M unit :=
  fun w =>
    match write_fault E (written w) file content with
    | Some e => (Throw e, w)
    | None => (Ok tt, World (dirs w) (written w ++ [(file, content)]) (log w))
    end.

(** [if (!fs.existsSync(dirPath)) fs.mkdirSync(dirPath, { recursive: true })] *)
Definition ensureOutputDir (dirPath : string) : M unit :=
  fun w =>
    if existsb (String.eqb dirPath) (dirs w) then (Ok tt, w)
    else match mkdir_fault E (dirs w) dirPath with
         | Some e => (Throw e, w)
         | None => (Ok tt, World (dirs w ++ [dirPath]) (written w) (log w))
         end.

(** Generates an __init__.py aggregator if multiple route files (tags)
    exist. *)
Definition generateAggregatorFile (apisDir : string)
  (pathsByTag : list (string * list value)) : M unit :=
  match pathsByTag with
  | [] => logMessage "INFO" "No tagged paths found. Skipping aggregator file."
  | _ =>
      logMessage "INFO" "Generating aggregator file for multiple tags..." ;;;
      writeFileSync (path_join E apisDir "__init__.py")
                    (aggregatorContent (List.map fst pathsByTag))
  end.

(** one of the three top-level files: rendered and written if and only
    if its template exists *)
Definition generateTopLevel (templates : string -> option template)
  (name file : string) (api : value) (outputDir : string) : M unit :=
  match templates name with
  | Some render =>
      try_catch
        (logMessage "INFO" ("Generating " ++ file ++ "...") ;;;
         content <-- lift (render api) ;;
         writeFileSync (path_join E outputDir file) content)
        (report ("Error generating " ++ file))
  | None => ret tt
  end.

(** the body of the loop over [Object.entries(components)] *)
Definition generateModel (fuel : nat) (templates : string -> option template)
  (components : value) (modelsDir : string) (schemaName : string) (schemaDef : value)
  : M unit :=
  logMessage "DEBUG" ("Processing schema: " ++ schemaName ++ "...") ;;;
  sch <-- lift (mergeComplexSchema fuel schemaDef components) ;;
  xOneOfUnion <-- lift (get sch "xOneOfUnion") ;;
  if truthy xOneOfUnion then
    logMessage "DEBUG" ("Detected oneOf union in schema: " ++ schemaName) ;;;
    match templates "one_of_union" with
    | Some render =>
        try_catch
          (content <-- lift (render (VObj [("name", VStr schemaName);
                                           ("unionTypes", xOneOfUnion)])) ;;
           writeFileSync (path_join E modelsDir (Str.toLowerCase schemaName ++ ".py"))
                         content)
          (report "Error generating oneOf union model")
    | None => ret tt
    end
  else
    properties <-- lift (get sch "properties") ;;
    if truthy properties then
      logMessage "DEBUG" ("Building properties for: " ++ schemaName) ;;;
      processedProperties <-- lift (buildProcessedProperties properties) ;;
      sch <-- lift (set sch "processedProperties" (VObj processedProperties)) ;;
      logMessage "DEBUG" ("Checking for enum fields in: " ++ schemaName) ;;;
      enums <-- lift (processEnums schemaName processedProperties) ;;
      let '(createdEnums, processedProperties) := enums in
      (* [sch.processedProperties] is the map [processEnums] has just
         rewritten in place *)
      sch <-- lift (set sch "processedProperties" (VObj processedProperties)) ;;
      importsList <-- lift (gatherImportsForProps processedProperties) ;;
      match templates "model_class" with
      | Some render =>
          try_catch
            (logMessage "INFO" ("Rendering model_class template for: " ++ schemaName) ;;;
             content <-- lift (render (VObj [("name", VStr schemaName);
                                             ("schema", sch);
                                             ("importsList", VArr (List.map VStr importsList));
                                             ("createdEnums", VArr createdEnums)])) ;;
             writeFileSync (path_join E modelsDir (Str.toLowerCase schemaName ++ ".py"))
                           content)
            (report ("Error generating model for " ++ schemaName))
      | None => ret tt
      end
    else
      logMessage "WARN" ("Schema " ++ schemaName ++ " has no properties; creating empty model.") ;;;
      match templates "model_class" with
      | Some render =>
          try_catch
            (content <-- lift (render (VObj [("name", VStr schemaName);
                                             ("schema", sch);
                                             ("importsList", VArr []);
                                             ("createdEnums", VArr [])])) ;;
             writeFileSync (path_join E modelsDir (Str.toLowerCase schemaName ++ ".py"))
                           content)
            (report ("Error generating empty model for " ++ schemaName))
      | None => ret tt
      end.

(** the body of the loop over [Object.entries(pathsByTag)] *)
Definition generateRoutes (render : template) (apisDir : string)
  (tag : string) (operations : list value) : M unit :=
  logMessage "DEBUG" ("Rendering api_routes for tag: " ++ tag) ;;;
  try_catch
    (routesContent <-- lift (render (VObj [("tag", VStr tag);
                                           ("operations", VArr operations)])) ;;
     writeFileSync (path_join E apisDir (Str.toLowerCase tag ++ ".py")) routesContent)
    (report ("Error generating routes for tag " ++ tag)).

(** what [generate] does inside its outer [try] *)
Definition generate_steps (fuel : nat) (api : value) (outputDir : string) : M unit :=
  ensureOutputDir outputDir ;;;
  let modelsDir := path_join E outputDir "models" in
  let apisDir := path_join E outputDir "apis" in
  ensureOutputDir modelsDir ;;;
  ensureOutputDir apisDir ;;;
  templates <--
    try_catch
      (templates <-- lift (loadTemplates E "python-fastapi") ;;
       logMessage "INFO" "Templates loaded successfully." ;;;
       ret templates)
      (report "Failed to load templates") ;;
  generateTopLevel templates "main" "main.py" api outputDir ;;;
  generateTopLevel templates "requirements" "requirements.txt" api outputDir ;;;
  generateTopLevel templates "README" "README.md" api outputDir ;;;
  declared <-- lift (c <- get api "components" ;;
                     if truthy c then get c "schemas" else Ok c) ;;
  let components := if truthy declared then declared else VObj [] in
  schemas <-- lift (entries components) ;;
  forM schemas (fun schema =>
                  generateModel fuel templates components modelsDir
                                (fst schema) (snd schema)) ;;;
  paths <-- lift (get api "paths") ;;
  match truthy paths, templates "api_routes" with
  | true, Some render =>
      logMessage "INFO" "Generating route files..." ;;;
      pathsByTag <-- lift (groupOperations paths) ;;
      forM pathsByTag (fun group => generateRoutes render apisDir (fst group) (snd group)) ;;;
      generateAggregatorFile apisDir pathsByTag
  | _, _ => logMessage "INFO" "No paths or no api_routes template. Skipping routes."
  end ;;;
  logMessage "INFO" "Python FastAPI Code Generation complete.".

(** [pythonFastApiGenerator.generate(api, outputDir)] *)
Definition generate (fuel : nat) (api : value) (outputDir : string) : M unit :=
  logMessage "INFO" "Starting generation process..." ;;;
  try_catch (generate_steps fuel api outputDir) (report "Generation failed").

End Pipeline.

(** ** Auxiliary notions used in the statements *)

(** a word that is not empty, starts with neither a digit nor an underscore
    and does not end with an underscore *)
Definition plain_word (w : string) : bool :=
  match Str.head w, Str.last w with
  | Some c, Some d =>
      negb (Str.is_digit c) && negb (Ascii.eqb c "_") && negb (Ascii.eqb d "_")
  | _, _ => false
  end.

(** the flat object shape an [allOf] merge accumulates *)
Definition merged_object (props : list (string * value)) (required : list value) : value :=
  VObj [("type", VStr "object"); ("properties", VObj props); ("required", VArr required)].

(** [undefined] and [null]: the values no property can be read from *)
Definition nullish (v : value) : bool :=
  match v with
  | VUndef | VNull => true
  | _ => false
  end.

(** the node an [allOf] member stands for: the member itself, or the
    target of its reference *)
Definition member_target (components sub : value) : result value :=
  ref <- get sub "$ref" ;;
  if truthy ref then resolveRef ref components else Ok sub.

(** the resolved form of an [allOf] member, as the loop of
    [mergeComplexSchema] computes it before handing it to [mergeInto] *)
Definition resolve_member (fuel : nat) (components sub : value) : result value :=
  target <- member_target components sub ;;
  mergeComplexSchema fuel target components.

(** the property definitions a resolved member brings to a merge *)
Definition part_properties (part : value) : list (string * value) :=
  match get part "properties" with
  | Ok p => if truthy p then spread_entries p else []
  | _ => []
  end.

(** the required names a resolved member brings to a merge *)
Definition part_required (part : value) : list value :=
  match get part "required" with
  | Ok r => if truthy r
            then match iterate r with Ok names => names | _ => [] end
            else []
  | _ => []
  end.

Definition is_string (v : value) : bool :=
  match v with VStr _ => true | _ => false end.

(** the [required] field of a schema fragment is absent or a list of
    names *)
Definition required_is_names (part : value) : bool :=
  match get part "required" with
  | Ok r => if truthy r
            then match r with VArr names => forallb is_string names | _ => false end
            else true
  | _ => false
  end.

(** [v] is the definition of [k] given by the last of [parts] that
    defines [k] *)
Definition last_definition (parts : list value) (k : string) (v : value) : Prop :=
  exists before part after,
    parts = (before ++ part :: after)%list
    /\ assoc k (part_properties part) = Some v
    /\ Forall (fun later => assoc k (part_properties later) = None) after.

(** the (path, method) pair a group member stands for *)
Definition path_and_method (member : value) : result value * result value :=
  (get member "path", get member "method").


(** a computation that only adds to the world: whatever the outcome, the
    directories, the files written and the diagnostics it started from are
    still there, in place, when it ends *)
Definition grows {A : Type} (m : M A) : Prop :=
  forall w, exists ds fs ls,
    dirs (snd (m w)) = (dirs w ++ ds)%list
    /\ written (snd (m w)) = (written w ++ fs)%list
    /\ log (snd (m w)) = (log w ++ ls)%list.

(** the error-level diagnostics of a log *)
Definition errors_of (entries : list (string * string)) : list (string * string) :=
  List.filter (fun entry => String.eqb (fst entry) "ERROR") entries.


(** ** Concrete inputs used in examples *)

Module Examples.

(** a reference to a named schema *)
Definition ref_to (name : string) : value :=
  VObj [("$ref", VStr ("#/components/schemas/" ++ name))].

(** [Base: { properties: { baseName: string }, required: [baseName] }] *)
Definition base_components : value :=
  VObj [("Base",
         VObj [("properties", VObj [("baseName", VObj [("type", VStr "string")])]);
               ("required", VArr [VStr "baseName"])])].

(** [allOf: [ref(Base), { properties: { extraField: integer },
    required: [extraField] }]] *)
Definition extended_schema : value :=
  VObj [("allOf",
         VArr [ref_to "Base";
               VObj [("properties", VObj [("extraField", VObj [("type", VStr "integer")])]);
                     ("required", VArr [VStr "extraField"])]])].

(** a node that declares both compositions *)
Definition both_schema : value :=
  VObj [("oneOf", VArr [ref_to "Foo"; ref_to "Bar"]);
        ("allOf", VArr [ref_to "Base"])].

(** an [allOf] whose only member declares both compositions *)
Definition nested_both_schema : value :=
  VObj [("allOf",
         VArr [VObj [("oneOf", VArr [ref_to "Cat"]);
                     ("allOf",
                      VArr [VObj [("properties", VObj [("legs", VObj [("type", VStr "integer")])]);
                                  ("required", VArr [VStr "legs"])]])]])].

(** an [allOf] with a plain member between two union members, one
    inline and one behind a reference *)
Definition union_components : value :=
  VObj [("Pet", VObj [("oneOf", VArr [ref_to "Cat"; ref_to "Dog"])])].

Definition with_union_members : value :=
  VObj [("allOf",
         VArr [VObj [("oneOf", VArr [ref_to "Cat"; VObj []])];
               VObj [("properties", VObj [("legs", VObj [("type", VStr "integer")])])];
               ref_to "Pet"])].

(** operations at [/pets] (tags: pets, twice) and [/users] (tags:
    users, once) *)
Definition pets_users_paths : value :=
  VObj [("/pets", VObj [("get", VObj [("tags", VArr [VStr "pets"]);
                                      ("operationId", VStr "listPets")]);
                        ("post", VObj [("tags", VArr [VStr "pets"]);
                                       ("operationId", VStr "createPet")])]);
        ("/users", VObj [("get", VObj [("tags", VArr [VStr "users"]);
                                       ("operationId", VStr "listUsers")])])].

(** one operation whose tag list is empty *)
Definition empty_tags_operation : value := VObj [("tags", VArr [])].

Definition empty_tags_paths : value :=
  VObj [("/pets", VObj [("get", empty_tags_operation)])].

(** an operation whose first tag is the name of a member every object
    inherits *)
Definition constructor_operation : value := VObj [("tags", VArr [VStr "constructor"])].

Definition constructor_paths : value :=
  VObj [("/pets", VObj [("get", constructor_operation)])].

Definition constructor_api : value := VObj [("paths", constructor_paths)].

(** a boolean property with a boolean default and a boolean example *)
Definition flag_property : value :=
  VObj [("type", VStr "boolean"); ("default", VBool true); ("example", VBool true)].




(** one operation tagged [pets], and a template set that only renders
    route files *)
Definition one_route_api : value :=
  VObj [("paths", VObj [("/pets", VObj [("get", VObj [("tags", VArr [VStr "pets"])])])])].

Definition routes_only (name : string) : option template :=
  if String.eqb name "api_routes" then Some (fun _ => Ok "# routes") else None.

Definition slash_join (a b : string) : string := a ++ "/" ++ b.

(** a file system that refuses to write the aggregator file *)
Definition aggregator_fault : env :=
  Env slash_join
      (fun _ => Ok routes_only)
      (fun _ file _ =>
         if String.eqb file "out/apis/__init__.py"
         then Some (Error "EISDIR: illegal operation on a directory")
         else None)
      (fun _ _ => None).

(** a file system that refuses to write the route file of the tag *)
Definition routes_fault : env :=
  Env slash_join
      (fun _ => Ok routes_only)
      (fun _ file _ =>
         if String.eqb file "out/apis/pets.py"
         then Some (Error "EISDIR: illegal operation on a directory")
         else None)
      (fun _ _ => None).

Definition fresh_world : world := World [] [] [].

(** two union schemas, and a template set whose union template fails on
    the schema called [name] *)
Definition two_unions_api : value :=
  VObj [("components",
         VObj [("schemas",
                VObj [("Cat", VObj [("oneOf", VArr [ref_to "Lion"; ref_to "Lynx"])]);
                      ("Dog", VObj [("oneOf", VArr [ref_to "Wolf"])])])])].

Definition union_fails_on (name : string) (template_name : string) : option template :=
  if String.eqb template_name "one_of_union"
  then Some (fun context =>
               schemaName <- get context "name" ;;
               if is_str schemaName name then Throw (Error "render failed")
               else Ok "# union")
  else None.

Definition union_fault (name : string) : env :=
  Env slash_join (fun _ => Ok (union_fails_on name)) (fun _ _ _ => None) (fun _ _ => None).


(** the description and the templates of the test suite: a base schema, a
    schema extending it, a schema without properties, and three tagged
    operations; the templates print what the tests look for *)
Definition suite_api : value :=
  VObj [("components",
         VObj [("schemas",
                VObj [("BasePerson",
                       VObj [("properties", VObj [("baseName", VObj [("type", VStr "string")])]);
                             ("required", VArr [VStr "baseName"])]);
                      ("ExtendedPerson",
                       VObj [("allOf",
                              VArr [ref_to "BasePerson";
                                    VObj [("properties",
                                           VObj [("extraField", VObj [("type", VStr "integer")])]);
                                          ("required", VArr [VStr "extraField"])]])]);
                      ("EmptyOne", VObj [])])]);
        ("paths", pets_users_paths)].

Definition suite_templates (name : string) : option template :=
  if String.eqb name "api_routes"
  then Some (fun context =>
               tag <- get context "tag" ;;
               operations <- get context "operations" ;;
               count <- get operations "length" ;;
               Ok ("# routes for " ++ to_key tag ++ ": " ++ to_key count))
  else if String.eqb name "model_class"
  then Some (fun context =>
               name <- get context "name" ;;
               schema <- get context "schema" ;;
               processed <- get schema "processedProperties" ;;
               Ok ("class " ++ to_key name ++ " # merged props: "
                     ++ String.concat ", " (List.map fst (spread_entries processed))))
  else None.

Definition suite_env : env :=
  Env slash_join (fun _ => Ok suite_templates) (fun _ _ _ => None) (fun _ _ => None).

End Examples.

(** ** The other functions of the repository *)

(** the [sanitizePath] helper that core/templates.ts registers with the
    template engine: [str.replace(/[\/{}]/g, '_')] *)
Definition sanitizePath (str : string) : string :=
  Str.map (fun c => if Ascii.eqb c "/" || Ascii.eqb c "{" || Ascii.eqb c "}"
                    then "_"%char else c)
          str.

(** the [extractRefName] helper of core/templates.ts: the empty string for
    anything that is not a non-empty string, the last path segment
    otherwise *)
Definition extractRefName (refString : value) : string :=
  if negb (truthy refString) || negb (String.eqb (typeof refString) "string")
  then EmptyString
  else match refString with
       | VStr s => List.last (Str.split "/" s) EmptyString
       | _ => EmptyString
       end.

(** what generators/index.ts keeps in its registry: a [generate] method;
    the recursion bound of the schema resolver is passed along *)
Definition generator : Type := nat -> value -> string -> M unit.

Definition generatorRegistry (E : env) : list (string * generator) :=
  [("python-fastapi", generate E)].

(** what [generatorRegistry[language]] finds when it is truthy: a
    registered generator, or a member inherited from [Object.prototype],
    which has no [generate] method *)
Inductive registry_entry : Type :=
| Registered (g : generator)
| Inherited (name : string).

Definition getGenerator (E : env) (language : string) : result registry_entry :=
  match assoc language (generatorRegistry E) with
  | Some generator => Ok (Registered generator)
  | None =>
      if existsb (String.eqb language) object_prototype_members
      then Ok (Inherited language)
      else Throw (Error ("No generator found for language " ++ quoted language))
  end.

(** core/parser.ts *)
Definition validateOpenAPISpec (api : value) : bool := true.

(** [generateCode] of src/index.ts; the parser is the collaborator
    [parseOpenAPISpec] *)
Definition generateCode (E : env) (parseOpenAPISpec : string -> result value)
  (fuel : nat) (specPath language outputDir : string) : M unit :=
  api <-- lift (parseOpenAPISpec specPath) ;;
  if negb (validateOpenAPISpec api)
  then throw (Error "Invalid OpenAPI specification.")
  else
    generator <-- lift (getGenerator E language) ;;
    match generator with
    | Registered g => g fuel api outputDir
    | Inherited _ => throw (TypeError "generator.generate is not a function")
    end.

(** ** Further notions used in the statements *)

(** the markers the import collector looks for in a type, and the import
    each stands for *)
Definition import_rules : list (list string * string) :=
  [ (["List["], "from typing import List");
    (["Dict["], "from typing import Dict, Any");
    (["AnyUrl"], "from pydantic import AnyUrl");
    (["EmailStr"], "from pydantic import EmailStr");
    (["SecretStr"], "from pydantic import SecretStr");
    (["datetime.date"; "datetime.datetime"], "import datetime");
    (["uuid.UUID"], "import uuid") ].

(** the type [type] contains a marker of the import [line] *)
Definition needs_import (type line : string) : bool :=
  existsb (fun rule => String.eqb (snd rule) line
                       && existsb (fun marker => Str.includes marker type) (fst rule))
          import_rules.

(** the enumeration a processed property carries, if it carries one *)
Definition enum_values (ps : value) : option value :=
  match get ps "enum" with
  | Ok enum => if truthy enum && isArray enum then Some enum else None
  | _ => None
  end.




(** a computation that writes only files whose path satisfies [P] *)
Definition writes_only {A : Type} (P : string -> Prop) (m : M A) : Prop :=
  forall w, exists fs,
    written (snd (m w)) = (written w ++ fs)%list
    /\ Forall (fun file => P (fst file)) fs.

(** a path directly inside the output directory or inside one of its two
    subdirectories, as the path library joins them *)
Definition under_output (E : env) (outputDir file : string) : Prop :=
  exists dir name,
    In dir [outputDir; path_join E outputDir "models"; path_join E outputDir "apis"]
    /\ file = path_join E dir name.

(** the two lines of the aggregator file that belong to a tag *)
Definition import_line (tag : string) : string :=
  "from ." ++ Str.toLowerCase tag ++ " import router as "
    ++ Str.toLowerCase tag ++ "_router" ++ newline.

Definition register_line (tag : string) : string :=
  "router.include_router(" ++ Str.toLowerCase tag ++ "_router)" ++ newline.

(** a schema whose [allOf] refers to the schema itself *)
Definition self_referring_components : value :=
  VObj [("Node", VObj [("allOf", VArr [Examples.ref_to "Node";
                                       VObj [("properties", VObj [])]])])].

(* ================================================================== *)
(** * Part II: properties *)
(* ================================================================== *)

(** ** NameSanitizer *)

Lemma all_append (p : ascii -> bool) (s t : string) :
  Str.all p (s ++ t) = Str.all p s && Str.all p t.
Proof.
  induction s as [|c s IH]; simpl.
  - reflexivity.
  - rewrite IH. now rewrite andb_assoc.
Qed.

Lemma replace_non_word_all (s : string) :
  Str.all Str.is_word (replace_non_word s) = true.
Proof.
  unfold replace_non_word.
  induction s as [|c s IH]; simpl; [reflexivity|].
  rewrite IH, andb_true_r.
  destruct (Str.is_word c) eqn:Hc; [exact Hc | reflexivity].
Qed.

Lemma replace_non_word_fixed (s : string) :
  Str.all Str.is_word s = true -> replace_non_word s = s.
Proof.
  unfold replace_non_word.
  induction s as [|c s IH]; simpl; [reflexivity|].
  intros H. apply andb_true_iff in H as [Hc Hs].
  rewrite Hc, (IH Hs). reflexivity.
Qed.

Lemma is_reserved_In (s : string) :
  is_reserved s = true <-> In s PYTHON_RESERVED_WORDS.
Proof.
  unfold is_reserved. rewrite existsb_exists. split.
  - intros [w [Hin Heq]]. apply String.eqb_eq in Heq. now subst.
  - intros Hin. exists s. split; [exact Hin | apply String.eqb_refl].
Qed.

Lemma reserved_words_plain (w : string) :
  is_reserved w = true -> plain_word w = true.
Proof.
  intros H. apply is_reserved_In in H.
  assert (Hall : forallb plain_word PYTHON_RESERVED_WORDS = true) by reflexivity.
  rewrite forallb_forall in Hall. now apply Hall.
Qed.

Lemma last_append_char (s : string) (c : ascii) :
  Str.last (s ++ String c EmptyString) = Some c.
Proof.
  induction s as [|d s IH]; simpl; [reflexivity|].
  destruct (s ++ String c EmptyString) eqn:E.
  - destruct s; discriminate.
  - exact IH.
Qed.

Lemma not_reserved_underscore_end (s : string) :
  is_reserved (s ++ "_") = false.
Proof.
  destruct (is_reserved (s ++ "_")) eqn:E; [|reflexivity].
  apply reserved_words_plain in E. unfold plain_word in E.
  rewrite last_append_char in E.
  destruct (Str.head (s ++ "_")); [|discriminate].
  simpl in E. now rewrite andb_false_r in E.
Qed.

Lemma not_reserved_underscore_start (s : string) :
  is_reserved ("_" ++ s) = false.
Proof.
  destruct (is_reserved ("_" ++ s)) eqn:E; [|reflexivity].
  apply reserved_words_plain in E. unfold plain_word in E.
  change (Str.head ("_" ++ s)) with (Some "_"%char) in E.
  destruct (Str.last ("_" ++ s)); [|discriminate].
  simpl in E. discriminate.
Qed.

Lemma reserved_no_digit_start (s t : string) :
  is_reserved s = true -> starts_with_digit (s ++ t) = false.
Proof.
  intros H. apply reserved_words_plain in H. unfold plain_word in H.
  destruct s as [|c s]; [discriminate|].
  unfold starts_with_digit.
  change (Str.head (String c s ++ t)) with (Some c).
  change (Str.head (String c s)) with (Some c) in H.
  destruct (Str.last (String c s)); [|discriminate].
  destruct (Str.is_digit c); [discriminate | reflexivity].
Qed.

(** the three shapes a sanitized name can have *)
Lemma sanitizeName_cases (x : string) :
  let s := replace_non_word x in
  (is_reserved s = true /\ sanitizeName x = s ++ "_")
  \/ (is_reserved s = false /\ starts_with_digit s = true /\ sanitizeName x = "_" ++ s)
  \/ (is_reserved s = false /\ starts_with_digit s = false /\ sanitizeName x = s).
Proof.
  intros s. unfold sanitizeName. fold s.
  destruct (is_reserved s) eqn:Hr.
  - left. split; [reflexivity|].
    now rewrite (reserved_no_digit_start s "_" Hr).
  - right. destruct (starts_with_digit s) eqn:Hd; [left | right]; auto.
Qed.

Lemma sanitizeName_all_word (x : string) :
  Str.all Str.is_word (sanitizeName x) = true.
Proof.
  pose proof (replace_non_word_all x) as Hw.
  destruct (sanitizeName_cases x) as [[_ E] | [[_ [_ E]] | [_ [_ E]]]]; rewrite E.
  - rewrite all_append, Hw. reflexivity.
  - simpl. rewrite Hw. reflexivity.
  - exact Hw.
Qed.

(** C4. [sanitizeName] is a total function on strings; it is idempotent,
    its result never starts with a digit, and its result is never a member
    of the reserved-word set. *)
Theorem sanitizeName_idempotent_safe (x : string) :
  sanitizeName (sanitizeName x) = sanitizeName x
  /\ starts_with_digit (sanitizeName x) = false
  /\ ~ In (sanitizeName x) PYTHON_RESERVED_WORDS.
Proof.
  assert (Hd : starts_with_digit (sanitizeName x) = false).
  { destruct (sanitizeName_cases x) as [[Hr E] | [[_ [_ E]] | [_ [Hd E]]]]; rewrite E.
    - now apply reserved_no_digit_start.
    - reflexivity.
    - exact Hd. }
  assert (Hr : is_reserved (sanitizeName x) = false).
  { destruct (sanitizeName_cases x) as [[_ E] | [[_ [_ E]] | [Hr [_ E]]]]; rewrite E.
    - apply not_reserved_underscore_end.
    - apply not_reserved_underscore_start.
    - exact Hr. }
  split; [|split].
  - unfold sanitizeName at 1.
    rewrite (replace_non_word_fixed _ (sanitizeName_all_word x)).
    rewrite Hr. cbv zeta. rewrite Hd. reflexivity.
  - exact Hd.
  - intros Hin. apply is_reserved_In in Hin. congruence.
Qed.

(** ** TypeMapper *)

Lemma truthy_VStr (s : string) :
  truthy (VStr s) = true <-> s <> EmptyString.
Proof.
  simpl. rewrite negb_true_iff. split.
  - intros H E. subst. discriminate.
  - intros H. now apply String.eqb_neq.
Qed.

Lemma last_segment_not_Diverge (ref : value) : last_segment ref <> Diverge.
Proof. destruct ref; discriminate. Qed.

Lemma get_not_Diverge (v : value) (k : string) : get v k <> Diverge.
Proof.
  destruct v; simpl; try discriminate.
  - destruct (array_index k); [discriminate|]. destruct (k =? "length"); discriminate.
  - destruct (array_index k); [discriminate|]. destruct (k =? "length"); discriminate.
  - destruct (assoc k props); discriminate.
Qed.

Lemma assoc_depth (k : string) (kv : list (string * value)) (v : value) :
  assoc k kv = Some v -> depth v < depth (VObj kv).
Proof.
  simpl. induction kv as [|[k' v'] kv IH]; simpl; [discriminate|].
  destruct (k' =? k).
  - intros [= ->]. lia.
  - intros H. specialize (IH H). lia.
Qed.

(** reading [items.items] either descends into an object or yields
    [undefined] *)
Lemma get_items_depth (items v : value) :
  get items "items" = Ok v ->
  depth v < depth items \/ v = VUndef.
Proof.
  destruct items; simpl; try discriminate.
  - intros [= <-]; now right.
  - intros [= <-]; now right.
  - change (array_index "items") with (@None N). simpl. intros [= <-]; now right.
  - change (array_index "items") with (@None N). simpl. intros [= <-]; now right.
  - destruct (assoc "items" props) eqn:E.
    + intros [= <-]. left. now apply (assoc_depth "items").
    + intros [= <-]; now right.
Qed.

(** with no [items] to descend into, one unit of fuel is enough *)
Lemma getPythonType_rec_leaf (fuel : nat) (kind format items ref : value) :
  truthy items = false ->
  getPythonType_rec (S fuel) kind format items ref <> Diverge.
Proof.
  intros Hi. simpl. rewrite Hi.
  destruct (truthy ref).
  - pose proof (last_segment_not_Diverge ref). destruct (last_segment ref); simpl; congruence.
  - repeat match goal with
           | |- context [if ?c then _ else _] => destruct c
           end; simpl; discriminate.
Qed.

(** the recursion of the type mapper terminates: fuel above the nesting
    depth of [items] is never used up *)
Lemma getPythonType_rec_returns (fuel : nat) :
  forall kind format items ref : value,
    2 + depth items <= fuel ->
    getPythonType_rec fuel kind format items ref <> Diverge.
Proof.
  induction fuel as [|fuel IH]; intros kind format items ref Hfuel; [lia|].
  destruct (truthy items) eqn:Hi; [|now apply getPythonType_rec_leaf].
  simpl. rewrite Hi.
  destruct (truthy ref).
  { pose proof (last_segment_not_Diverge ref). destruct (last_segment ref); simpl; congruence. }
  destruct (negb (truthy kind)); [discriminate|].
  destruct (is_str kind "integer"); [discriminate|].
  destruct (is_str kind "number"); [destruct (_ || _); discriminate|].
  destruct (is_str kind "boolean"); [discriminate|].
  destruct (is_str kind "string").
  { repeat match goal with
           | |- context [if ?c then _ else _] => destruct c
           end; discriminate. }
  destruct (is_str kind "array").
  2:{ destruct (is_str kind "object"); discriminate. }
  pose proof (get_not_Diverge items "$ref") as H1.
  pose proof (get_not_Diverge items "type") as H2.
  pose proof (get_not_Diverge items "format") as H3.
  pose proof (get_not_Diverge items "items") as H4.
  destruct (get items "$ref") as [childRef| |]; simpl; try congruence.
  destruct (get items "type") as [itemType| |]; simpl; try congruence.
  destruct (get items "format") as [itemFormat| |]; simpl; try congruence.
  destruct (get items "items") as [itemItems| |] eqn:Hget; simpl; try congruence.
  assert (Hrec : getPythonType_rec fuel itemType itemFormat itemItems childRef <> Diverge).
  { destruct (get_items_depth _ _ Hget) as [Hlt | ->].
    - apply IH. lia.
    - destruct fuel as [|fuel']; [simpl in Hfuel; lia|].
      now apply getPythonType_rec_leaf. }
  destruct (getPythonType_rec fuel itemType itemFormat itemItems childRef);
    simpl; congruence.
Qed.

(** [getPythonType] always returns a type token or throws *)
Lemma getPythonType_total (kind format items ref : value) :
  getPythonType kind format items ref <> Diverge.
Proof. apply getPythonType_rec_returns. lia. Qed.

(** C5, as the claim states it, fails: a reference that is present but
    empty does not win.  With kind [integer] and the empty reference the
    mapper answers [int], not the sanitized last segment of the reference
    (the empty name). *)
Lemma getPythonType_empty_ref_counterexample :
  getPythonType (VStr "integer") VUndef VUndef (VStr EmptyString) = Ok "int"
  /\ (name <- last_segment (VStr EmptyString) ;; Ok (sanitizeName name)) = Ok EmptyString
  /\ getPythonType (VStr "integer") VUndef VUndef (VStr EmptyString)
     <> (name <- last_segment (VStr EmptyString) ;; Ok (sanitizeName name)).
Proof.
  split; [reflexivity|]. split; [reflexivity|]. discriminate.
Qed.

(** C5, amended.  A reference that is present and not the empty string
    wins over the other three fields: the result is the sanitized last path
    segment of the reference.  When both the reference and the kind are
    absent the result is the [Any] token. *)
Theorem getPythonType_ref_precedence
  (kind format items : value) (ref : string) (Href : ref <> EmptyString) :
  getPythonType kind format items (VStr ref)
    = Ok (sanitizeName (List.last (Str.split "/" ref) EmptyString))
  /\ getPythonType VUndef format items VUndef = Ok "Any".
Proof.
  split.
  - unfold getPythonType. simpl getPythonType_rec.
    apply truthy_VStr in Href. simpl in Href. rewrite Href. reflexivity.
  - reflexivity.
Qed.

Lemma getPythonType_ref_precedence_witness :
  "#/components/schemas/Pet" <> EmptyString
  /\ getPythonType (VStr "integer") (VStr "int32") (VObj [("type", VStr "string")])
                   (VStr "#/components/schemas/Pet") = Ok "Pet".
Proof.
  split; [discriminate|].
  exact (proj1 (getPythonType_ref_precedence
                  (VStr "integer") (VStr "int32") (VObj [("type", VStr "string")])
                  "#/components/schemas/Pet" ltac:(discriminate))).
Defined.

(** ** Own properties: lookup after assignment *)

Section PropsFacts.
Context {A : Type}.
Implicit Types (k : string) (v : A) (kv : list (string * A)).

Lemma assoc_app k kv kv' :
  assoc k (kv ++ kv') = match assoc k kv with
                        | Some v => Some v
                        | None => assoc k kv'
                        end.
Proof.
  induction kv as [|[k0 v0] kv IH]; simpl; [reflexivity|].
  destruct (k0 =? k); [reflexivity | exact IH].
Qed.

Lemma assoc_None k kv : assoc k kv = None <-> ~ In k (List.map fst kv).
Proof.
  induction kv as [|[k0 v0] kv IH]; simpl.
  - tauto.
  - destruct (k0 =? k) eqn:E.
    + apply String.eqb_eq in E. split; [discriminate | tauto].
    + apply String.eqb_neq in E. rewrite IH. tauto.
Qed.


Lemma In_assoc k v kv :
  NoDup (List.map fst kv) -> In (k, v) kv -> assoc k kv = Some v.
Proof.
  induction kv as [|[k0 v0] kv IH]; simpl; [tauto|].
  intros Hnd [H | H]; inversion Hnd as [|? ? Hnotin Hnd']; subst.
  - injection H as -> ->. now rewrite String.eqb_refl.
  - destruct (k0 =? k) eqn:E.
    + apply String.eqb_eq in E. subst. exfalso. apply Hnotin.
      now apply (in_map fst) in H.
    + now apply IH.
Qed.

Lemma has_key_false k kv : has_key k kv = false <-> ~ In k (List.map fst kv).
Proof.
  unfold has_key. rewrite <- assoc_None.
  destruct (assoc k kv); split; congruence.
Qed.

Lemma keys_replace k v kv : List.map fst (replace k v kv) = List.map fst kv.
Proof.
  induction kv as [|[k0 v0] kv IH]; simpl; [reflexivity|].
  destruct (k0 =? k); simpl; [reflexivity | now rewrite IH].
Qed.

Lemma assoc_replace k k' v kv :
  has_key k' kv = true ->
  assoc k (replace k' v kv) = if k' =? k then Some v else assoc k kv.
Proof.
  unfold has_key.
  induction kv as [|[k0 v0] kv IH]; simpl; [discriminate|].
  destruct (k0 =? k') eqn:E0; simpl.
  - intros _. apply String.eqb_eq in E0. subst k0.
    destruct (k' =? k); reflexivity.
  - intros H. rewrite (IH H).
    destruct (k0 =? k) eqn:E1; [|reflexivity].
    apply String.eqb_eq in E1. subst k0.
    rewrite String.eqb_sym in E0. now rewrite E0.
Qed.

Lemma insert_index_perm i k v kv :
  Permutation (insert_index i k v kv) ((k, v) :: kv).
Proof.
  induction kv as [|[k0 v0] kv IH]; simpl; [reflexivity|].
  destruct (array_index k0) as [j|]; [|reflexivity].
  destruct (i <? j)%N; [reflexivity|].
  rewrite IH. apply perm_swap.
Qed.

Lemma assoc_insert_index i k k' v kv :
  has_key k' kv = false ->
  assoc k (insert_index i k' v kv) = if k' =? k then Some v else assoc k kv.
Proof.
  unfold has_key.
  induction kv as [|[k0 v0] kv IH]; simpl; [reflexivity|].
  destruct (k0 =? k') eqn:E0; [discriminate|]. intros H.
  destruct (array_index k0) as [j|]; [|reflexivity].
  destruct (i <? j)%N; [reflexivity|].
  simpl. rewrite (IH H).
  destruct (k0 =? k) eqn:E1; [|reflexivity].
  apply String.eqb_eq in E1. subst k0.
  rewrite String.eqb_sym in E0. now rewrite E0.
Qed.

(** reading back after [o[k'] = v] *)
Lemma assoc_obj_set k k' v kv :
  assoc k (obj_set kv k' v) = if k' =? k then Some v else assoc k kv.
Proof.
  unfold obj_set. destruct (has_key k' kv) eqn:Hk.
  - now apply assoc_replace.
  - destruct (array_index k') as [i|].
    + now apply assoc_insert_index.
    + rewrite assoc_app. simpl.
      destruct (k' =? k) eqn:E.
      * apply String.eqb_eq in E. subst k'.
        unfold has_key in Hk. destruct (assoc k kv); [discriminate | reflexivity].
      * destruct (assoc k kv); reflexivity.
Qed.

(** assigning to a new key adds one property *)
Lemma obj_set_fresh k v kv :
  has_key k kv = false -> Permutation (obj_set kv k v) ((k, v) :: kv).
Proof.
  intros Hk. unfold obj_set. rewrite Hk.
  destruct (array_index k) as [i|].
  - apply insert_index_perm.
  - symmetry. apply Permutation_cons_append.
Qed.

Lemma obj_set_NoDup k v kv :
  NoDup (List.map fst kv) -> NoDup (List.map fst (obj_set kv k v)).
Proof.
  intros Hnd. destruct (has_key k kv) eqn:Hk.
  - unfold obj_set. rewrite Hk, keys_replace. exact Hnd.
  - apply (Permutation_NoDup (l := List.map fst ((k, v) :: kv))).
    + symmetry. apply Permutation_map. now apply obj_set_fresh.
    + simpl. constructor; [now apply has_key_false | exact Hnd].
Qed.

Lemma assign_all_NoDup entries : forall kv,
  NoDup (List.map fst kv) -> NoDup (List.map fst (assign_all kv entries)).
Proof.
  unfold assign_all.
  induction entries as [|[k v] entries IH]; intros kv Hnd; simpl; [exact Hnd|].
  apply IH. now apply obj_set_NoDup.
Qed.

Lemma assign_all_app kv entries entries' :
  assign_all kv (entries ++ entries') = assign_all (assign_all kv entries) entries'.
Proof. unfold assign_all. apply fold_left_app. Qed.

(** reading back after assigning a list of entries with distinct keys *)
Lemma assoc_assign_all k entries : forall kv,
  NoDup (List.map fst entries) ->
  assoc k (assign_all kv entries)
    = match assoc k entries with
      | Some v => Some v
      | None => assoc k kv
      end.
Proof.
  unfold assign_all.
  induction entries as [|[k0 v0] entries IH]; intros kv Hnd; simpl; [reflexivity|].
  inversion Hnd as [|? ? Hnotin Hnd']; subst.
  rewrite (IH _ Hnd'), assoc_obj_set.
  destruct (k0 =? k) eqn:E.
  - apply String.eqb_eq in E. subst k0.
    apply assoc_None in Hnotin. now rewrite Hnotin.
  - reflexivity.
Qed.

End PropsFacts.

(** ** Values: induction, equality, sets *)

Lemma value_ind_nested (P : value -> Prop)
  (HU : P VUndef) (HN : P VNull)
  (HB : forall b, P (VBool b)) (HZ : forall n, P (VNum n)) (HS : forall s, P (VStr s))
  (HA : forall l, Forall P l -> P (VArr l))
  (HO : forall kv, Forall (fun p => P (snd p)) kv -> P (VObj kv)) :
  forall v, P v.
Proof.
  fix IH 1.
  intros [| |b|n|s|l|kv]; [exact HU | exact HN | apply HB | apply HZ | apply HS | | ].
  - apply HA. induction l as [|x l IHl]; constructor; [apply IH | exact IHl].
  - apply HO. induction kv as [|[k x] kv IHkv]; constructor; [apply IH | exact IHkv].
Qed.

Lemma value_eqb_refl (x : value) : value_eqb x x = true.
Proof.
  induction x as [| |b|n|s|l IH|kv IH] using value_ind_nested; simpl.
  - reflexivity.
  - reflexivity.
  - apply Bool.eqb_reflx.
  - apply Z.eqb_refl.
  - apply String.eqb_refl.
  - induction IH as [|x l Hx _ IHl]; [reflexivity|]. now rewrite Hx, IHl.
  - induction IH as [|[k x] kv Hx _ IHkv]; [reflexivity|].
    simpl in Hx. now rewrite String.eqb_refl, Hx, IHkv.
Qed.

Lemma value_eqb_sound (x : value) : forall y, value_eqb x y = true -> x = y.
Proof.
  induction x as [| |b|n|s|l IH|kv IH] using value_ind_nested;
    intros [| |b'|n'|s'|l'|kv']; simpl; try discriminate.
  - reflexivity.
  - reflexivity.
  - intros H. apply Bool.eqb_prop in H. now subst.
  - intros H. apply Z.eqb_eq in H. now subst.
  - intros H. apply String.eqb_eq in H. now subst.
  - intros H. f_equal. revert l' H.
    induction IH as [|x l Hx _ IHl]; intros [|y l'] H; try discriminate; auto.
    apply andb_true_iff in H as [H1 H2].
    f_equal; [now apply Hx | now apply IHl].
  - intros H. f_equal. revert kv' H.
    induction IH as [|[k x] kv Hx _ IHkv]; intros [|[k' y] kv'] H; try discriminate; auto.
    apply andb_true_iff in H as [H12 H3]. apply andb_true_iff in H12 as [H1 H2].
    apply String.eqb_eq in H1. simpl in Hx.
    f_equal; [f_equal; [exact H1 | now apply Hx] | now apply IHkv].
Qed.

Lemma value_eqb_eq (x y : value) : value_eqb x y = true <-> x = y.
Proof.
  split; [apply value_eqb_sound | intros ->; apply value_eqb_refl].
Qed.

Lemma seen_In (x : value) (seen : list value) :
  existsb (value_eqb x) seen = true <-> In x seen.
Proof.
  rewrite existsb_exists. split.
  - intros [y [Hin Heq]]. apply value_eqb_eq in Heq. now subst.
  - intros Hin. exists x. split; [exact Hin | apply value_eqb_refl].
Qed.

Lemma dedup_from_In (x : value) (l : list value) : forall seen,
  In x (dedup_from seen l) <-> In x l /\ ~ In x seen.
Proof.
  induction l as [|y l IH]; intros seen; simpl; [tauto|].
  destruct (existsb (value_eqb y) seen) eqn:E.
  - apply seen_In in E. rewrite IH. split.
    + tauto.
    + intros [[-> | H] Hn]; [contradiction | tauto].
  - assert (Hy : ~ In y seen) by (rewrite <- seen_In; congruence).
    simpl. rewrite IH. simpl. split.
    + intros [-> | [H Hn]]; [tauto|]. tauto.
    + intros [[-> | H] Hn]; [tauto|].
      destruct (value_eqb y x) eqn:Eyx.
      * apply value_eqb_eq in Eyx. tauto.
      * right. split; [exact H|]. intros [-> | Hs]; [|contradiction].
        now rewrite value_eqb_refl in Eyx.
Qed.

Lemma dedup_from_NoDup (l : list value) : forall seen, NoDup (dedup_from seen l).
Proof.
  induction l as [|y l IH]; intros seen; simpl; [constructor|].
  destruct (existsb (value_eqb y) seen); [apply IH|].
  constructor; [|apply IH].
  rewrite dedup_from_In. simpl. tauto.
Qed.

(** a set built from a list holds exactly the elements of the list, each
    once *)
Lemma dedup_spec (l : list value) :
  NoDup (dedup l) /\ forall x, In x (dedup l) <-> In x l.
Proof.
  split; [apply dedup_from_NoDup|].
  intros x. unfold dedup. rewrite dedup_from_In. simpl. tauto.
Qed.

(** ** SchemaResolver *)

Lemma get_Ok_nullish (v : value) (k : string) (x : value) :
  get v k = Ok x -> nullish v = false.
Proof. destruct v; simpl; try discriminate; reflexivity. Qed.

Lemma get_of_not_nullish (v : value) (k : string) :
  nullish v = false -> exists x, get v k = Ok x.
Proof.
  destruct v; simpl; try discriminate; intros _; eauto.
  - destruct (array_index k); eauto. destruct (k =? "length"); eauto.
  - destruct (array_index k); eauto. destruct (k =? "length"); eauto.
  - destruct (assoc k props); eauto.
Qed.

(** what [mergeInto] does to an accumulator of the merged shape *)
Lemma mergeInto_merged_object (props : list (string * value)) (req : list value)
  (part ep er : value) :
  get part "properties" = Ok ep ->
  get part "required" = Ok er ->
  mergeInto (merged_object props req) part
    = let props' := if truthy ep
                    then assign_all [] (props ++ spread_entries ep)
                    else props in
      if truthy er
      then new <- iterate er ;; Ok (merged_object props' (dedup (req ++ new)))
      else Ok (merged_object props' req).
Proof.
  intros Hp Hr. unfold mergeInto. rewrite Hp. cbn [bind].
  destruct (truthy ep); cbn; rewrite Hr; cbn; destruct (truthy er); reflexivity.
Qed.

Lemma foldM_ext {A B : Type} (f g : A -> B -> result A) (l : list B) :
  (forall acc x, f acc x = g acc x) ->
  forall acc, foldM f l acc = foldM g l acc.
Proof.
  intros Hfg. induction l as [|x l IH]; intros acc; simpl; [reflexivity|].
  rewrite Hfg. destruct (g acc x); simpl; auto.
Qed.

Lemma foldM_app {A B : Type} (f : A -> B -> result A) (l l' : list B) (acc : A) :
  foldM f (l ++ l') acc = (acc' <- foldM f l acc ;; foldM f l' acc').
Proof.
  revert acc. induction l as [|x l IH]; intros acc; simpl; [reflexivity|].
  destruct (f acc x); simpl; auto.
Qed.

(** one call of [mergeComplexSchema], with the loop body read as: resolve
    the member, then merge its resolved form into the accumulator *)
Lemma mergeComplexSchema_step (fuel : nat) (schema components : value) :
  mergeComplexSchema (S fuel) schema components
    = (allOf <- get schema "allOf" ;;
       if truthy allOf then
         subs <- iterate allOf ;;
         foldM (fun merged sub =>
                  part <- resolve_member fuel components sub ;;
                  mergeInto merged part)
               subs empty_merged
       else
         oneOf <- get schema "oneOf" ;;
         if truthy oneOf then
           match oneOf with
           | VArr members =>
               names <- mapM union_member members ;;
               Ok (VObj [("xOneOfUnion", VArr names)])
           | _ => Throw (TypeError "schema.oneOf.map is not a function")
           end
         else Ok schema).
Proof.
  cbn [mergeComplexSchema].
  destruct (get schema "allOf") as [allOf| |]; cbn [bind]; try reflexivity.
  destruct (truthy allOf); [|reflexivity].
  destruct (iterate allOf) as [subs| |]; cbn [bind]; try reflexivity.
  apply foldM_ext. intros merged sub.
  unfold resolve_member, member_target.
  destruct (get sub "$ref") as [ref| |]; cbn [bind]; try reflexivity.
  destruct (truthy ref); cbn [bind]; [|reflexivity].
  destruct (resolveRef ref components); reflexivity.
Qed.

Lemma mergeInto_shape (props : list (string * value)) (req : list value)
  (part r : value) :
  mergeInto (merged_object props req) part = Ok r ->
  exists props' req', r = merged_object props' req'.
Proof.
  intros H.
  destruct (get part "properties") as [ep| |] eqn:Hp;
    try (unfold mergeInto in H; rewrite Hp in H; discriminate).
  destruct (get_of_not_nullish part "required" (get_Ok_nullish _ _ _ Hp)) as [er Hr].
  rewrite (mergeInto_merged_object _ _ _ _ _ Hp Hr) in H. cbv zeta in H.
  destruct (truthy er).
  - destruct (iterate er); cbn [bind] in H; [|discriminate..].
    injection H as <-. eauto.
  - injection H as <-. eauto.
Qed.

(** whatever the members are, an [allOf] loop that completes leaves an
    accumulator of the merged shape *)
Lemma merge_loop_shape (fuel : nat) (components : value) (subs : list value) :
  forall props req r,
    foldM (fun merged sub =>
             part <- resolve_member fuel components sub ;;
             mergeInto merged part)
          subs (merged_object props req) = Ok r ->
    exists props' req', r = merged_object props' req'.
Proof.
  induction subs as [|sub subs IH]; intros props req r; simpl.
  - intros [= <-]. eauto.
  - destruct (resolve_member fuel components sub) as [part| |]; cbn [bind]; try discriminate.
    destruct (mergeInto (merged_object props req) part) as [acc| |] eqn:Hm;
      cbn [bind]; try discriminate.
    destruct (mergeInto_shape _ _ _ _ Hm) as [props' [req' ->]].
    apply IH.
Qed.

(** a resolved schema is never [undefined] or [null] *)
Lemma mergeComplexSchema_not_nullish (fuel : nat) (schema components r : value) :
  mergeComplexSchema fuel schema components = Ok r -> nullish r = false.
Proof.
  destruct fuel as [|fuel]; [discriminate|].
  rewrite mergeComplexSchema_step.
  destruct (get schema "allOf") as [allOf| |] eqn:Ha; cbn [bind]; try discriminate.
  destruct (truthy allOf).
  - destruct (iterate allOf) as [subs| |]; cbn [bind]; try discriminate.
    intros H. apply (merge_loop_shape fuel components subs [] []) in H.
    destruct H as [props [req ->]]. reflexivity.
  - destruct (get schema "oneOf") as [oneOf| |]; cbn [bind]; try discriminate.
    destruct (truthy oneOf).
    + destruct oneOf; try discriminate.
      destruct (mapM union_member elems); cbn [bind]; try discriminate.
      intros [= <-]. reflexivity.
    + intros [= <-]. now apply get_Ok_nullish in Ha.
Qed.

Lemma resolve_member_not_nullish (fuel : nat) (components sub part : value) :
  resolve_member fuel components sub = Ok part -> nullish part = false.
Proof.
  unfold resolve_member.
  destruct (member_target components sub); cbn [bind]; try discriminate.
  apply mergeComplexSchema_not_nullish.
Qed.

(** when every member resolves, the loop is a fold of [mergeInto] over the
    resolved forms *)
Lemma merge_loop_resolved (fuel : nat) (components : value)
  (subs parts : list value) :
  Forall2 (fun sub part => resolve_member fuel components sub = Ok part) subs parts ->
  forall acc,
    foldM (fun merged sub =>
             part <- resolve_member fuel components sub ;;
             mergeInto merged part)
          subs acc
    = foldM mergeInto parts acc.
Proof.
  induction 1 as [|sub part subs parts Hsub _ IH]; intros acc; simpl; [reflexivity|].
  rewrite Hsub. cbn [bind].
  destruct (mergeInto acc part); cbn [bind]; auto.
Qed.

Lemma last_definition_cons (part : value) (parts : list value) (k : string) (v : value) :
  last_definition (part :: parts) k v
  <-> last_definition parts k v
      \/ (assoc k (part_properties part) = Some v
          /\ Forall (fun later => assoc k (part_properties later) = None) parts).
Proof.
  unfold last_definition. split.
  - intros [before [part0 [after [Heq [Hk Hafter]]]]].
    destruct before as [|b before]; simpl in Heq; injection Heq as -> ->.
    + now right.
    + left. now exists before, part0, after.
  - intros [[before [part0 [after [-> [Hk Hafter]]]]] | [Hk Hafter]].
    + now exists (part :: before), part0, after.
    + now exists [], part, parts.
Qed.

Lemma part_properties_of (part ep : value) :
  get part "properties" = Ok ep ->
  part_properties part = if truthy ep then spread_entries ep else [].
Proof. intros H. unfold part_properties. now rewrite H. Qed.

(** the fold of [mergeInto] over resolved members: it completes, each
    property of the result is the definition given by the last member that
    defines it (or the accumulator's, if no member does), and the required
    list holds every required name once *)
Lemma merge_parts_spec (parts : list value) :
  Forall (fun part => nullish part = false) parts ->
  Forall (fun part => NoDup (List.map fst (part_properties part))) parts ->
  Forall (fun part => required_is_names part = true) parts ->
  forall props req,
    NoDup (List.map fst props) ->
    NoDup req ->
    exists props' req',
      foldM mergeInto parts (merged_object props req) = Ok (merged_object props' req')
      /\ NoDup (List.map fst props')
      /\ (forall k v,
            assoc k props' = Some v
            <-> last_definition parts k v
                \/ (assoc k props = Some v
                    /\ Forall (fun part => assoc k (part_properties part) = None) parts))
      /\ NoDup req'
      /\ (forall x,
            In x req'
            <-> In x req \/ exists part, In part parts /\ In x (part_required part)).
Proof.
  induction parts as [|part parts IH]; intros Hnn Hnd Hreq props req Hprops Hr0.
  - exists props, req. simpl.
    split; [reflexivity|]. split; [exact Hprops|]. split; [|split; [exact Hr0|]].
    + intros k v. split.
      * intros H. right. split; [exact H | constructor].
      * intros [[before [p [after [Heq _]]]] | [H _]]; [|exact H].
        destruct before; discriminate.
    + intros x. split; [tauto|].
      intros [H | [p [[] _]]]. exact H.
  - inversion Hnn as [|? ? Hn Hnn']; inversion Hnd as [|? ? Hd Hnd'];
      inversion Hreq as [|? ? Hq Hreq']; subst.
    destruct (get_of_not_nullish part "properties" Hn) as [ep Hp].
    destruct (get_of_not_nullish part "required" Hn) as [er Hr].
    pose proof (part_properties_of _ _ Hp) as Hpp.
    (* the accumulator after this member *)
    set (props1 := if truthy ep then assign_all [] (props ++ spread_entries ep) else props).
    set (req1 := if truthy er then dedup (req ++ part_required part) else req).
    assert (Hstep : mergeInto (merged_object props req) part = Ok (merged_object props1 req1)).
    { rewrite (mergeInto_merged_object _ _ _ _ _ Hp Hr). cbv zeta.
      unfold req1, part_required. rewrite Hr.
      unfold required_is_names in Hq. rewrite Hr in Hq.
      destruct (truthy er); [|reflexivity].
      destruct er; try discriminate. reflexivity. }
    assert (Hprops1 : NoDup (List.map fst props1)).
    { unfold props1. destruct (truthy ep); [|exact Hprops].
      apply assign_all_NoDup. constructor. }
    assert (Hlook : forall k,
               assoc k props1 = match assoc k (part_properties part) with
                                | Some v => Some v
                                | None => assoc k props
                                end).
    { intros k. unfold props1. rewrite Hpp in *.
      destruct (truthy ep); [|reflexivity].
      rewrite assign_all_app, (assoc_assign_all k _ _ Hd), (assoc_assign_all k _ _ Hprops).
      simpl. destruct (assoc k (spread_entries ep)); [reflexivity|].
      destruct (assoc k props); reflexivity. }
    assert (Hreq1 : NoDup req1
                    /\ forall x, In x req1 <-> In x req \/ In x (part_required part)).
    { unfold req1. destruct (truthy er) eqn:Her.
      - destruct (dedup_spec (req ++ part_required part)) as [H1 H2].
        split; [exact H1|]. intros x. rewrite H2. apply in_app_iff.
      - split; [exact Hr0|]. intros x.
        unfold part_required. rewrite Hr, Her. simpl. tauto. }
    destruct Hreq1 as [Hreq1 Hin1].
    destruct (IH Hnn' Hnd' Hreq' props1 req1 Hprops1 Hreq1)
      as [props' [req' [Hfold [Hnd2 [Hassoc [Hnd3 Hin]]]]]].
    exists props', req'. simpl. rewrite Hstep. cbn [bind].
    split; [exact Hfold|]. split; [exact Hnd2|]. split; [|split; [exact Hnd3|]].
    + intros k v. rewrite Hassoc, last_definition_cons, Hlook.
      destruct (assoc k (part_properties part)) as [v'|] eqn:Hk.
      * split.
        -- intros [H | [H1 H2]]; [tauto|]. left. right. split; congruence.
        -- intros [[H | [H1 H2]] | [_ H]]; [tauto | right; split; congruence |].
           inversion H; congruence.
      * split.
        -- intros [H | [H1 H2]]; [tauto|]. right. split; [exact H1|]. now constructor.
        -- intros [[H | [H1 _]] | [H1 H2]]; [tauto | discriminate |].
           right. split; [exact H1|]. now inversion H2.
    + intros x. rewrite Hin, Hin1. split.
      * intros [[H | H] | [p [Hp1 Hp2]]]; [tauto | |].
        -- right. exists part. split; [now left | exact H].
        -- right. exists p. split; [now right | exact Hp2].
      * intros [H | [p [[<- | Hp1] Hp2]]]; [tauto | tauto |].
        right. now exists p.
Qed.

(** C1, as the claim states it, fails: on a node that declares both
    [oneOf: [ref(Foo), ref(Bar)]] and [allOf: [ref(Base)]] the resolver
    returns the object merged from the [allOf] members and not the union
    marker over the [oneOf] members. *)
Lemma oneOf_with_allOf_counterexample :
  get Examples.both_schema "oneOf"
    = Ok (VArr [Examples.ref_to "Foo"; Examples.ref_to "Bar"])
  /\ get Examples.both_schema "allOf" = Ok (VArr [Examples.ref_to "Base"])
  /\ mergeComplexSchema 2 Examples.both_schema Examples.base_components
     = Ok (merged_object [("baseName", VObj [("type", VStr "string")])] [VStr "baseName"])
  /\ mergeComplexSchema 2 Examples.both_schema Examples.base_components
     <> Ok (VObj [("xOneOfUnion", VArr [VStr "Foo"; VStr "Bar"])]).
Proof.
  split; [reflexivity|]. split; [reflexivity|]. split; [reflexivity|]. discriminate.
Qed.

(** C1, amended.  For every raw schema node that declares both a [oneOf]
    composition and an [allOf] composition, schema resolution treats the
    node as an [allOf] composition and ignores the [oneOf] members: the
    outcome is the one for the node reduced to its [allOf] list, and a
    result, when there is one, is a merged object shape, never a union
    marker. *)
Theorem allOf_takes_precedence_over_oneOf
  (fuel : nat) (schema components : value) (subs members : list value)
  (HallOf : get schema "allOf" = Ok (VArr subs))
  (HoneOf : get schema "oneOf" = Ok (VArr members)) :
  mergeComplexSchema fuel schema components
    = mergeComplexSchema fuel (VObj [("allOf", VArr subs)]) components
  /\ (forall r, mergeComplexSchema fuel schema components = Ok r ->
                exists props req, r = merged_object props req)
  /\ (forall names, mergeComplexSchema fuel schema components
                    <> Ok (VObj [("xOneOfUnion", VArr names)])).
Proof.
  assert (Hshape : forall r, mergeComplexSchema fuel schema components = Ok r ->
                             exists props req, r = merged_object props req).
  { destruct fuel as [|fuel]; [discriminate|].
    intros r. rewrite mergeComplexSchema_step, HallOf. cbn [bind truthy iterate].
    apply (merge_loop_shape fuel components subs [] []). }
  split; [|split; [exact Hshape|]].
  - destruct fuel as [|fuel]; [reflexivity|].
    rewrite !mergeComplexSchema_step, HallOf. reflexivity.
  - intros names H. apply Hshape in H as [props [req H]]. discriminate.
Qed.

Lemma allOf_takes_precedence_over_oneOf_witness :
  get Examples.both_schema "allOf" = Ok (VArr [Examples.ref_to "Base"])
  /\ get Examples.both_schema "oneOf"
     = Ok (VArr [Examples.ref_to "Foo"; Examples.ref_to "Bar"])
  /\ mergeComplexSchema 2 Examples.both_schema Examples.base_components
     = mergeComplexSchema 2 (VObj [("allOf", VArr [Examples.ref_to "Base"])])
                          Examples.base_components.
Proof.
  split; [reflexivity|]. split; [reflexivity|].
  exact (proj1 (allOf_takes_precedence_over_oneOf
                  2 Examples.both_schema Examples.base_components
                  [Examples.ref_to "Base"] [Examples.ref_to "Foo"; Examples.ref_to "Bar"]
                  eq_refl eq_refl)).
Defined.

(** C3.  For every [allOf] composition whose members all resolve to
    schema fragments (distinct property names, [required] absent or a list
    of names), the merge completes with an object accumulator in which each
    property carries the definition of the last member, in declaration
    order, that defines it, and whose required list holds, without
    duplicates, exactly the names some member requires.  In particular
    [allOf: [ref(Base), { extraField }]] yields one entity with both
    properties and [required = [baseName, extraField]]. *)
Theorem allOf_merge_superimposes :
  (forall (fuel : nat) (schema components : value) (subs parts : list value),
      get schema "allOf" = Ok (VArr subs) ->
      Forall2 (fun sub part => resolve_member fuel components sub = Ok part) subs parts ->
      Forall (fun part => NoDup (List.map fst (part_properties part))) parts ->
      Forall (fun part => required_is_names part = true) parts ->
      exists props req,
        mergeComplexSchema (S fuel) schema components = Ok (merged_object props req)
        /\ (forall k v, assoc k props = Some v <-> last_definition parts k v)
        /\ NoDup req
        /\ (forall x, In x req <-> exists part, In part parts /\ In x (part_required part)))
  /\ mergeComplexSchema 2 Examples.extended_schema Examples.base_components
     = Ok (merged_object
             [("baseName", VObj [("type", VStr "string")]);
              ("extraField", VObj [("type", VStr "integer")])]
             [VStr "baseName"; VStr "extraField"]).
Proof.
  split; [|reflexivity].
  intros fuel schema components subs parts HallOf Hres Hnd Hreq.
  assert (Hnn : Forall (fun part => nullish part = false) parts).
  { clear - Hres. induction Hres as [|sub part subs parts Hsub _ IH]; constructor; auto.
    now apply resolve_member_not_nullish in Hsub. }
  destruct (merge_parts_spec parts Hnn Hnd Hreq [] [] (NoDup_nil _) (NoDup_nil _))
    as [props [req [Hfold [_ [Hassoc [Hnd' Hin]]]]]].
  exists props, req.
  split; [|split; [|split; [exact Hnd'|]]].
  - rewrite mergeComplexSchema_step, HallOf. cbn [bind truthy iterate].
    rewrite (merge_loop_resolved _ _ _ _ Hres). exact Hfold.
  - intros k v. rewrite Hassoc. simpl. split; [|tauto].
    intros [H | [H _]]; [exact H | discriminate].
  - intros x. rewrite Hin. simpl. tauto.
Qed.

Lemma allOf_merge_superimposes_witness :
  exists props req,
    mergeComplexSchema 2 Examples.extended_schema Examples.base_components
      = Ok (merged_object props req)
    /\ (forall k v,
          assoc k props = Some v
          <-> last_definition
                [VObj [("properties", VObj [("baseName", VObj [("type", VStr "string")])]);
                       ("required", VArr [VStr "baseName"])];
                 VObj [("properties", VObj [("extraField", VObj [("type", VStr "integer")])]);
                       ("required", VArr [VStr "extraField"])]]
                k v).
Proof.
  destruct (proj1 allOf_merge_superimposes
              1 Examples.extended_schema Examples.base_components
              [Examples.ref_to "Base";
               VObj [("properties", VObj [("extraField", VObj [("type", VStr "integer")])]);
                     ("required", VArr [VStr "extraField"])]]
              [VObj [("properties", VObj [("baseName", VObj [("type", VStr "string")])]);
                     ("required", VArr [VStr "baseName"])];
               VObj [("properties", VObj [("extraField", VObj [("type", VStr "integer")])]);
                     ("required", VArr [VStr "extraField"])]]
              eq_refl
              ltac:(repeat constructor)
              ltac:(repeat constructor; simpl; tauto)
              ltac:(repeat constructor))
    as [props [req [H1 [H2 _]]]].
  exists props, req. split; [exact H1 | exact H2].
Defined.

(** C10, as the claim states it, fails: a member that declares a [oneOf]
    composition next to an [allOf] composition does not resolve to a union
    marker.  Its [allOf] members are merged, and their properties and
    required names end up in the enclosing entity. *)
Lemma oneOf_member_with_allOf_counterexample :
  (exists member,
      get Examples.nested_both_schema "allOf" = Ok (VArr [member])
      /\ get member "oneOf" = Ok (VArr [Examples.ref_to "Cat"])
      /\ resolve_member 2 (VObj []) member
         = Ok (merged_object [("legs", VObj [("type", VStr "integer")])] [VStr "legs"]))
  /\ mergeComplexSchema 3 Examples.nested_both_schema (VObj [])
     = Ok (merged_object [("legs", VObj [("type", VStr "integer")])] [VStr "legs"])
  /\ mergeComplexSchema 3 Examples.nested_both_schema (VObj [])
     <> mergeComplexSchema 3 (VObj [("allOf", VArr [])]) (VObj []).
Proof.
  split; [|split; [reflexivity | discriminate]].
  eexists. split; [reflexivity|]. split; reflexivity.
Qed.

(** C10, amended.  During an [allOf] merge, a member whose node (the member
    itself when it carries no reference, its reference target otherwise)
    declares a [oneOf] composition and no [allOf] composition resolves to a
    union marker carrying no properties and no required names; merging the
    marker leaves every accumulator as it is, so the outcome of the merge
    is the outcome without that member. *)
Theorem union_member_contributes_nothing
  (fuel : nat) (schema components : value)
  (before after : list value) (sub target allOf : value)
  (members : list value) (names : list value)
  (HallOf : get schema "allOf" = Ok (VArr (before ++ sub :: after)))
  (Htarget : member_target components sub = Ok target)
  (Hplain : get target "allOf" = Ok allOf /\ truthy allOf = false)
  (HoneOf : get target "oneOf" = Ok (VArr members))
  (Hnames : mapM union_member members = Ok names) :
  let marker := VObj [("xOneOfUnion", VArr names)] in
  resolve_member (S fuel) components sub = Ok marker
  /\ part_properties marker = []
  /\ part_required marker = []
  /\ (forall merged, mergeInto merged marker = Ok merged)
  /\ mergeComplexSchema (S (S fuel)) schema components
     = mergeComplexSchema (S (S fuel)) (VObj [("allOf", VArr (before ++ after))]) components.
Proof.
  intros marker. destruct Hplain as [Hget Hfalsy].
  assert (Hres : resolve_member (S fuel) components sub = Ok marker).
  { unfold resolve_member. rewrite Htarget. cbn [bind].
    rewrite mergeComplexSchema_step, Hget. cbn [bind]. rewrite Hfalsy, HoneOf.
    cbn [bind truthy]. rewrite Hnames. reflexivity. }
  split; [exact Hres|]. split; [reflexivity|]. split; [reflexivity|].
  split; [reflexivity|].
  rewrite !mergeComplexSchema_step, HallOf.
  cbn [get assoc String.eqb Ascii.eqb Bool.eqb bind truthy iterate].
  rewrite !foldM_app.
  destruct (foldM _ before empty_merged) as [acc| |]; cbn [bind]; try reflexivity.
  cbn [foldM]. rewrite Hres. reflexivity.
Qed.

Lemma union_member_contributes_nothing_witness :
  mergeComplexSchema 3 Examples.with_union_members Examples.union_components
    = mergeComplexSchema 3
        (VObj [("allOf",
                VArr [VObj [("oneOf", VArr [Examples.ref_to "Cat"; VObj []])];
                      VObj [("properties", VObj [("legs", VObj [("type", VStr "integer")])])]])])
        Examples.union_components
  /\ mergeComplexSchema 3 Examples.with_union_members Examples.union_components
     = Ok (merged_object [("legs", VObj [("type", VStr "integer")])] []).
Proof.
  split; [|reflexivity].
  exact (proj2 (proj2 (proj2 (proj2
    (union_member_contributes_nothing
       1 Examples.with_union_members Examples.union_components
       [VObj [("oneOf", VArr [Examples.ref_to "Cat"; VObj []])];
        VObj [("properties", VObj [("legs", VObj [("type", VStr "integer")])])]]
       []
       (Examples.ref_to "Pet")
       (VObj [("oneOf", VArr [Examples.ref_to "Cat"; Examples.ref_to "Dog"])])
       VUndef
       [Examples.ref_to "Cat"; Examples.ref_to "Dog"]
       [VStr "Cat"; VStr "Dog"]
       eq_refl eq_refl (conj eq_refl eq_refl) eq_refl eq_refl))))).
Defined.

(** ** OperationGrouper *)

Open Scope list_scope.



(** an operation without a tag list is filed under the sentinel tag *)
Lemma operation_tag_absent (operation declared : value) :
  get operation "tags" = Ok declared -> truthy declared = false ->
  operation_tag operation = Ok (VStr "api").
Proof. intros H E. unfold operation_tag. rewrite H. cbn [bind]. now rewrite E. Qed.

(** an operation with a non-empty tag list is filed under its first tag *)
Lemma operation_tag_first (operation first : value) (others : list value) :
  get operation "tags" = Ok (VArr (first :: others)) ->
  operation_tag operation = Ok first.
Proof. intros H. unfold operation_tag. rewrite H. reflexivity. Qed.

(** an operation with an empty tag list has no first tag *)
Lemma operation_tag_empty (operation : value) :
  get operation "tags" = Ok (VArr []) ->
  operation_tag operation = Ok VUndef.
Proof. intros H. unfold operation_tag. rewrite H. reflexivity. Qed.



Lemma not_inherited (key : string) :
  ~ In key object_prototype_members ->
  existsb (String.eqb key) object_prototype_members = false.
Proof.
  intros Hnot. destruct (existsb _ _) eqn:E; [|reflexivity].
  apply existsb_exists in E as [name [Hin Heq]].
  apply String.eqb_eq in Heq. subst name. contradiction.
Qed.

(** under a key that is not an inherited name, an operation object joins
    the group of its key, which is created when the key is new *)
Lemma add_operation_plain (groups : list (string * list value))
  (pathUrl method : string) (operation tag : value) :
  is_operation_object operation = true ->
  operation_tag operation = Ok tag ->
  ~ In (to_key tag) object_prototype_members ->
  add_operation groups pathUrl method operation
  = Ok (obj_set groups (to_key tag)
          ((match assoc (to_key tag) groups with Some ms => ms | None => [] end)
             ++ [group_member pathUrl method operation])).
Proof.
  intros Hobj Htag Hplain. unfold add_operation. rewrite Hobj, Htag. cbn [negb bind].
  destruct (assoc (to_key tag) groups); [reflexivity|].
  now rewrite (not_inherited _ Hplain).
Qed.

(** under the name of an inherited member no group is ever created, and
    filing an operation object there fails *)
Lemma add_operation_inherited (groups : list (string * list value))
  (pathUrl method : string) (operation tag : value) :
  is_operation_object operation = true ->
  operation_tag operation = Ok tag ->
  In (to_key tag) object_prototype_members ->
  assoc (to_key tag) groups = None ->
  add_operation groups pathUrl method operation
  = Throw (TypeError "pathsByTag[tag].push is not a function").
Proof.
  intros Hobj Htag Hin Hnone. unfold add_operation. rewrite Hobj, Htag. cbn [negb bind].
  rewrite Hnone.
  assert (existsb (String.eqb (to_key tag)) object_prototype_members = true) as ->.
  { apply existsb_exists. exists (to_key tag). split; [exact Hin | apply String.eqb_refl]. }
  reflexivity.
Qed.


(** an operation object is filed, last, in the group of the key its tag
    denotes *)
Lemma add_operation_key (groups : list (string * list value))
  (pathUrl method : string) (operation tag : value) :
  is_operation_object operation = true ->
  operation_tag operation = Ok tag ->
  ~ In (to_key tag) object_prototype_members ->
  exists groups' earlier,
    add_operation groups pathUrl method operation = Ok groups'
    /\ assoc (to_key tag) groups' = Some (earlier ++ [group_member pathUrl method operation]).
Proof.
  intros Hobj Htag Hplain. rewrite (add_operation_plain _ _ _ _ _ Hobj Htag Hplain).
  eexists. eexists. split; [reflexivity|].
  rewrite assoc_obj_set, String.eqb_refl. reflexivity.
Qed.








Lemma path_and_method_member (pathUrl method : string) (operation : value) :
  path_and_method (group_member pathUrl method operation)
    = (Ok (VStr pathUrl), Ok (VStr method)).
Proof. reflexivity. Qed.



Lemma NoDup_app_disjoint {K : Type} (l l' : list K) (a : K) :
  NoDup (l ++ l') -> In a l -> In a l' -> False.
Proof.
  induction l as [|b l IH]; simpl; [tauto|].
  intros Hnd [-> | Hin] Hin'; inversion Hnd as [|? ? Hnotin Hnd']; subst.
  - apply Hnotin. apply in_or_app. now right.
  - now apply IH.
Qed.




(** C7: the code at an operation whose first tag is [constructor].  The
    operation node is an object, so it is one of the (path, method) pairs
    the groups are to hold.  The test [!pathsByTag[tag]], which is there to
    start a group for a tag not seen before, finds the member of that
    name that [pathsByTag] inherits; no group is started, [push] is called
    on the inherited member, and the grouping ends in a TypeError: the
    operation is in no group, and the run is rejected before any route
    file is written. *)
Theorem inherited_tag_breaks_grouping :
  is_operation_object Examples.constructor_operation = true
  /\ object_operations Examples.constructor_paths
     = Ok [group_member "/pets" "get" Examples.constructor_operation]
  /\ operation_tag Examples.constructor_operation = Ok (VStr "constructor")
  /\ groupOperations Examples.constructor_paths
     = Throw (TypeError "pathsByTag[tag].push is not a function")
  /\ generate Examples.suite_env 1 Examples.constructor_api "out" Examples.fresh_world
     = (Throw (TypeError "pathsByTag[tag].push is not a function"),
        World ["out"; "out/models"; "out/apis"]
              []
              [("INFO", "Starting generation process...");
               ("INFO", "Templates loaded successfully.");
               ("INFO", "Generating route files...");
               ("ERROR", "Generation failed: TypeError: pathsByTag[tag].push is not a function")]).
Proof. repeat split. Qed.

(** C2: the code at an operation whose tag list is empty.  The default
    [|| ['api']] does not apply, because an empty list is truthy; the first
    element of the empty list is [undefined], and the operation is filed
    under the key [undefined], not under the sentinel [api]. *)
Theorem empty_tag_list_filed_under_undefined :
  get Examples.empty_tags_operation "tags" = Ok (VArr [])
  /\ operation_tag Examples.empty_tags_operation = Ok VUndef
  /\ groupOperations Examples.empty_tags_paths
     = Ok [("undefined", [group_member "/pets" "get" Examples.empty_tags_operation])].
Proof. repeat split. Qed.

(** ** Property processing *)

(** peel the first [bind] off a hypothesis that a computation returned *)
Ltac first_step e :=
  match e with
  | bind ?e' _ => first_step e'
  | _ => e
  end.

Ltac bind_inv H :=
  match type of H with
  | bind ?e _ = Ok _ =>
      let h := first_step e in
      let x := fresh "x" in
      let E := fresh "E" in
      destruct h as [x| |] eqn:E; cbn [bind] in H; [|discriminate H..]
  end.

(** the record of a property carries its original name and is filed under
    its sanitized name; its literals are the normalized default and
    example *)
Lemma processProperty_entry (propName : string) (ps : value) (k : string) (entry : value) :
  processProperty propName ps = Ok (k, entry) ->
  k = sanitizeName propName
  /\ get entry "originalName" = Ok (VStr propName)
  /\ (forall d, get ps "default" = Ok d -> get entry "default" = Ok (defaultLiteral d))
  /\ (forall e, get ps "example" = Ok e -> get entry "example" = Ok (exampleLiteral e)).
Proof.
  unfold processProperty. intros H.
  do 11 bind_inv H.
  injection H as <- <-.
  split; [reflexivity|]. split; [reflexivity|].
  split; intros ? [= <-]; reflexivity.
Qed.

(** C6: the code at a boolean property with [default: true] and
    [example: true].  The default becomes the Python literal [True]; the
    example stays the boolean [true] and is not turned into a Python
    literal, because the example is only tested for being a string. *)
Theorem boolean_example_left_as_is :
  processProperty "active" Examples.flag_property
    = Ok ("active",
          VObj [("originalName", VStr "active");
                ("name", VStr "active");
                ("type", VStr "bool");
                ("default", VStr "True");
                ("example", VBool true);
                ("regex", VUndef);
                ("description", VStr EmptyString);
                ("enum", VUndef)])
  /\ defaultLiteral (VBool true) = VStr "True"
  /\ exampleLiteral (VBool true) = VBool true.
Proof. repeat split. Qed.

Lemma assoc_assign_property (k k' : string) (v : value) (kv : list (string * value)) :
  k <> "__proto__" ->
  assoc k (assign_property kv k' v) = if (k' =? k)%string then Some v else assoc k kv.
Proof.
  intros Hk. unfold assign_property.
  destruct (k' =? "__proto__")%string eqn:E; [|apply assoc_obj_set].
  apply String.eqb_eq in E. subst k'.
  destruct ("__proto__" =? k)%string eqn:E'; [|reflexivity].
  apply String.eqb_eq in E'. now subst k.
Qed.

Lemma assoc_assign_property_proto (k' : string) (v : value) (kv : list (string * value)) :
  assoc "__proto__" (assign_property kv k' v) = assoc "__proto__" kv.
Proof.
  unfold assign_property.
  destruct (k' =? "__proto__")%string eqn:E; [reflexivity|].
  now rewrite assoc_obj_set, E.
Qed.

Lemma assign_property_plain (k : string) (v : value) (kv : list (string * value)) :
  k <> "__proto__" -> assign_property kv k v = obj_set kv k v.
Proof.
  intros Hk. unfold assign_property.
  destruct (k =? "__proto__")%string eqn:E; [|reflexivity].
  apply String.eqb_eq in E. contradiction.
Qed.

Lemma assign_property_NoDup (k : string) (v : value) (kv : list (string * value)) :
  NoDup (List.map fst kv) -> NoDup (List.map fst (assign_property kv k v)).
Proof.
  intros Hnd. unfold assign_property.
  destruct (k =? "__proto__")%string; [exact Hnd | now apply obj_set_NoDup].
Qed.

(** the loop that fills [processedProperties]: nothing is ever stored
    under [__proto__], and any other key holds the record of the last
    property whose name sanitizes to it *)
Lemma processed_last_wins (props : list (string * value)) :
  forall acc processed,
    foldM (fun processedProperties prop =>
             entry <- processProperty (fst prop) (snd prop) ;;
             Ok (assign_property processedProperties (fst entry) (snd entry)))
          props acc = Ok processed ->
    (NoDup (List.map fst acc) -> NoDup (List.map fst processed))
    /\ assoc "__proto__" processed = assoc "__proto__" acc
    /\ forall k e,
        k <> "__proto__" ->
        assoc k processed = Some e
        <-> (exists before name ps after,
                props = before ++ (name, ps) :: after
                /\ processProperty name ps = Ok (k, e)
                /\ Forall (fun p => sanitizeName (fst p) <> k) after)
            \/ (assoc k acc = Some e
                /\ Forall (fun p => sanitizeName (fst p) <> k) props).
Proof.
  induction props as [|[name ps] props IH]; intros acc processed; simpl.
  - intros [= <-]. split; [auto|]. split; [reflexivity|]. intros k e _. split.
    + intros H. right. split; [exact H | constructor].
    + intros [[before [n [p [after [Heq _]]]]] | [H _]]; [|exact H].
      destruct before; discriminate.
  - intros H. bind_inv H. destruct x as [k0 e0]. simpl in H.
    destruct (processProperty_entry _ _ _ _ E) as [Hk0 _].
    destruct (IH _ _ H) as [IHnd [IHproto IHassoc]].
    split; [intros Hnd; apply IHnd; now apply assign_property_NoDup|].
    split; [now rewrite IHproto, assoc_assign_property_proto|].
    intros k e Hk. rewrite (IHassoc k e Hk), (assoc_assign_property _ _ _ _ Hk). split.
    + intros [[before [n [p [after [-> [Hp Hafter]]]]]] | [Hacc Hall]].
      * left. now exists ((name, ps) :: before), n, p, after.
      * destruct (k0 =? k) eqn:Ek.
        -- apply String.eqb_eq in Ek. subst k. injection Hacc as <-.
           left. now exists [], name, ps, props.
        -- apply String.eqb_neq in Ek. right. split; [exact Hacc|].
           constructor; [simpl; congruence | exact Hall].
    + intros [[before [n [p [after [Heq [Hp Hafter]]]]]] | [Hacc Hall]].
      * destruct before as [|b before]; simpl in Heq.
        -- injection Heq as <- <- <-. right.
           rewrite E in Hp. injection Hp as -> ->.
           rewrite String.eqb_refl. split; [reflexivity | exact Hafter].
        -- injection Heq as <- ->. left. now exists before, n, p, after.
      * inversion Hall as [|? ? Hne Hall']; subst. simpl in Hne.
        right. split; [|exact Hall'].
        destruct (sanitizeName name =? k) eqn:Ek; [|exact Hacc].
        apply String.eqb_eq in Ek. contradiction.
Qed.




(** ** EmissionPipeline *)

Open Scope string_scope.

Lemma grows_ret {A : Type} (a : A) : grows (ret a).
Proof. intros w. exists [], [], []. simpl. now rewrite !app_nil_r. Qed.

Lemma grows_lift {A : Type} (r : result A) : grows (lift r).
Proof. intros w. exists [], [], []. simpl. now rewrite !app_nil_r. Qed.

Lemma grows_throw {A : Type} (e : error) : grows (@throw A e).
Proof. intros w. exists [], [], []. simpl. now rewrite !app_nil_r. Qed.

Lemma grows_logMessage (level message : string) : grows (logMessage level message).
Proof. intros w. exists [], [], [(level, message)]. simpl. now rewrite !app_nil_r. Qed.

Lemma grows_bindM {A B : Type} (m : M A) (k : A -> M B) :
  grows m -> (forall a, grows (k a)) -> grows (bindM m k).
Proof.
  intros Hm Hk w. unfold bindM.
  destruct (Hm w) as [ds [fs [ls [H1 [H2 H3]]]]].
  destruct (m w) as [[a| |] w1]; simpl in *.
  - destruct (Hk a w1) as [ds' [fs' [ls' [K1 [K2 K3]]]]].
    exists (ds ++ ds')%list, (fs ++ fs')%list, (ls ++ ls')%list.
    rewrite K1, K2, K3, H1, H2, H3, !app_assoc. auto.
  - exists ds, fs, ls. auto.
  - exists ds, fs, ls. auto.
Qed.

Lemma grows_try_catch {A : Type} (body : M A) (handler : error -> M A) :
  grows body -> (forall e, grows (handler e)) -> grows (try_catch body handler).
Proof.
  intros Hm Hk w. unfold try_catch.
  destruct (Hm w) as [ds [fs [ls [H1 [H2 H3]]]]].
  destruct (body w) as [[a|e|] w1]; simpl in *.
  - exists ds, fs, ls. auto.
  - destruct (Hk e w1) as [ds' [fs' [ls' [K1 [K2 K3]]]]].
    exists (ds ++ ds')%list, (fs ++ fs')%list, (ls ++ ls')%list.
    rewrite K1, K2, K3, H1, H2, H3, !app_assoc. auto.
  - exists ds, fs, ls. auto.
Qed.

Lemma grows_forM {A : Type} (l : list A) (body : A -> M unit) :
  (forall x, grows (body x)) -> grows (forM l body).
Proof.
  intros Hbody. induction l as [|x l IH]; simpl.
  - apply grows_ret.
  - apply grows_bindM; auto.
Qed.

Lemma grows_report {A : Type} (what : string) (err : error) : grows (@report what A err).
Proof.
  unfold report. apply grows_bindM; [apply grows_logMessage | intros; apply grows_throw].
Qed.

Lemma grows_writeFileSync (E : env) (file content : string) :
  grows (writeFileSync E file content).
Proof.
  intros w. unfold writeFileSync.
  destruct (write_fault E (written w) file content); simpl.
  - exists [], [], []. now rewrite !app_nil_r.
  - exists [], [(file, content)], []. now rewrite !app_nil_r.
Qed.

Lemma grows_ensureOutputDir (E : env) (dirPath : string) :
  grows (ensureOutputDir E dirPath).
Proof.
  intros w. unfold ensureOutputDir.
  destruct (existsb (String.eqb dirPath) (dirs w)); simpl.
  - exists [], [], []. now rewrite !app_nil_r.
  - destruct (mkdir_fault E (dirs w) dirPath); simpl.
    + exists [], [], []. now rewrite !app_nil_r.
    + exists [dirPath], [], []. now rewrite !app_nil_r.
Qed.

Create HintDb grows discriminated.

#[export] Hint Resolve grows_ret grows_lift grows_throw grows_logMessage
  grows_report grows_writeFileSync grows_ensureOutputDir : grows.

(** decompose a pipeline step into the primitive actions it is made of *)
Ltac grows_step :=
  first
    [ apply grows_bindM; [|intros ?]
    | apply grows_try_catch; [|intros ?]
    | apply grows_forM; intros ?
    | solve [auto with grows]
    | match goal with
      | |- grows (match ?x with _ => _ end) => destruct x
      | |- grows (if ?c then _ else _) => destruct c
      end ].

Lemma grows_generateAggregatorFile (E : env) (apisDir : string)
  (pathsByTag : list (string * list value)) :
  grows (generateAggregatorFile E apisDir pathsByTag).
Proof. unfold generateAggregatorFile. repeat grows_step. Qed.

Lemma grows_generateTopLevel (E : env) (templates : string -> option template)
  (name file : string) (api : value) (outputDir : string) :
  grows (generateTopLevel E templates name file api outputDir).
Proof. unfold generateTopLevel. repeat grows_step. Qed.

Lemma grows_generateModel (E : env) (fuel : nat) (templates : string -> option template)
  (components : value) (modelsDir schemaName : string) (schemaDef : value) :
  grows (generateModel E fuel templates components modelsDir schemaName schemaDef).
Proof. unfold generateModel. repeat grows_step. Qed.

Lemma grows_generateRoutes (E : env) (render : template) (apisDir tag : string)
  (operations : list value) :
  grows (generateRoutes E render apisDir tag operations).
Proof. unfold generateRoutes. repeat grows_step. Qed.

#[export] Hint Resolve grows_generateAggregatorFile grows_generateTopLevel
  grows_generateModel grows_generateRoutes : grows.

Lemma grows_generate_steps (E : env) (fuel : nat) (api : value) (outputDir : string) :
  grows (generate_steps E fuel api outputDir).
Proof. unfold generate_steps. repeat grows_step. Qed.

(** nothing a run has created, written or reported is ever taken back *)
Lemma grows_generate (E : env) (fuel : nat) (api : value) (outputDir : string) :
  grows (generate E fuel api outputDir).
Proof.
  unfold generate.
  apply grows_bindM; [auto with grows | intros _].
  apply grows_try_catch; [apply grows_generate_steps | auto with grows].
Qed.

(** a failure inside a reporting handler: the same error leaves the
    handler, after one error-level diagnostic that starts with the
    handler's text *)
Lemma reported_failure {A : Type} (body : M A) (what : string)
  (w w1 : world) (e : error) :
  body w = (Throw e, w1) ->
  try_catch body (report what) w
    = (Throw e,
       World (dirs w1) (written w1)
             (log w1 ++ [("ERROR", what ++ ": " ++ error_to_string e)])).
Proof. intros H. unfold try_catch. rewrite H. reflexivity. Qed.

(** a handler lets every other outcome through *)
Lemma reported_outcome {A : Type} (body : M A) (what : string)
  (w w1 : world) (e : error) :
  try_catch body (report what) w = (Throw e, w1) ->
  exists w0,
    body w = (Throw e, w0)
    /\ w1 = World (dirs w0) (written w0)
                  (log w0 ++ [("ERROR", what ++ ": " ++ error_to_string e)]).
Proof.
  unfold try_catch. destruct (body w) as [[a|e'|] w0]; try discriminate.
  unfold report, bindM, logMessage, throw. simpl. intros [= -> <-]. now exists w0.
Qed.

(** What holds of every failing run: the error that made it fail reaches
    the caller, the last diagnostic is the error-level record of the
    failure, and everything the run had written (and everything written
    before the run) is still written. *)
Theorem generate_failure_propagates (E : env) (fuel : nat) (api : value)
  (outputDir : string) (w w' : world) (e : error) :
  generate E fuel api outputDir w = (Throw e, w') ->
  (exists w0, generate_steps E fuel api outputDir
                (World (dirs w) (written w)
                       (log w ++ [("INFO", "Starting generation process...")]))
              = (Throw e, w0)
              /\ written w' = written w0)
  /\ (exists fs, written w' = (written w ++ fs)%list)
  /\ (exists ls, log w' = (log w ++ ls
                           ++ [("ERROR", ("Generation failed: " ++ error_to_string e)%string)])%list).
Proof.
  intros H.
  pose proof (grows_generate_steps E fuel api outputDir
                (World (dirs w) (written w)
                       (log w ++ [("INFO", "Starting generation process...")])))
    as [ds [fs [ls [_ [Hfs Hls]]]]].
  unfold generate, bindM in H. simpl in H.
  apply reported_outcome in H as [w0 [Hsteps ->]].
  rewrite Hsteps in Hfs, Hls. simpl in *.
  split; [now exists w0|]. split; [now exists fs|].
  exists ([("INFO", "Starting generation process...")] ++ ls)%list.
  rewrite Hls, <- !app_assoc. reflexivity.
Qed.

(** a failure to write a route file is reported by its handler, which names
    the tag *)
Lemma routes_failure_run :
  errors_of (log (snd (generate Examples.routes_fault 1 Examples.one_route_api "out"
                                Examples.fresh_world)))
  = [("ERROR", "Error generating routes for tag pets: Error: EISDIR: illegal operation on a directory");
     ("ERROR", "Generation failed: Error: EISDIR: illegal operation on a directory")].
Proof. reflexivity. Qed.

(** C8: the code at three failing runs.  In the first two, over the same
    description, the union template fails on the first union schema ([Cat])
    and on the second ([Dog]).  Both runs abort with the template's error,
    and the file written before the failure of the second run stays
    written; but the error-level diagnostics of the two runs are the same:
    the handler of the union model reports [Error generating oneOf union
    model] without the schema name, so no error-level diagnostic tells
    which artifact failed.  In the third run the file system refuses the
    aggregator file.  That write has no handler of its own: the run aborts
    with the error, the route file written before stays written, and the
    only error-level diagnostic is the final [Generation failed] one. *)
Theorem failure_diagnostics_miss_the_artifact :
  (fst (generate (Examples.union_fault "Cat") 2 Examples.two_unions_api "out"
                 Examples.fresh_world)
   = Throw (Error "render failed")
   /\ fst (generate (Examples.union_fault "Dog") 2 Examples.two_unions_api "out"
                    Examples.fresh_world)
      = Throw (Error "render failed")
   /\ written (snd (generate (Examples.union_fault "Cat") 2 Examples.two_unions_api "out"
                             Examples.fresh_world))
      = []
   /\ written (snd (generate (Examples.union_fault "Dog") 2 Examples.two_unions_api "out"
                             Examples.fresh_world))
      = [("out/models/cat.py", "# union")]
   /\ errors_of (log (snd (generate (Examples.union_fault "Cat") 2 Examples.two_unions_api
                                    "out" Examples.fresh_world)))
      = [("ERROR", "Error generating oneOf union model: Error: render failed");
         ("ERROR", "Generation failed: Error: render failed")]
   /\ errors_of (log (snd (generate (Examples.union_fault "Dog") 2 Examples.two_unions_api
                                    "out" Examples.fresh_world)))
      = errors_of (log (snd (generate (Examples.union_fault "Cat") 2 Examples.two_unions_api
                                      "out" Examples.fresh_world))))
  /\ generate Examples.aggregator_fault 1 Examples.one_route_api "out" Examples.fresh_world
     = (Throw (Error "EISDIR: illegal operation on a directory"),
        World ["out"; "out/models"; "out/apis"]
              [("out/apis/pets.py", "# routes")]
              [("INFO", "Starting generation process...");
               ("INFO", "Templates loaded successfully.");
               ("INFO", "Generating route files...");
               ("DEBUG", "Rendering api_routes for tag: pets");
               ("INFO", "Generating aggregator file for multiple tags...");
               ("ERROR", "Generation failed: Error: EISDIR: illegal operation on a directory")]).
Proof. repeat split. Qed.

(** ** Scenarios of the test suite *)

Example union_scenario :
  mergeComplexSchema 1
    (VObj [("oneOf", VArr [Examples.ref_to "Foo"; Examples.ref_to "Bar"])])
    (VObj [("Foo", VObj [("properties", VObj [])]); ("Bar", VObj [("properties", VObj [])])])
  = Ok (VObj [("xOneOfUnion", VArr [VStr "Foo"; VStr "Bar"])]).
Proof. reflexivity. Qed.

Example special_types_scenario :
  getPythonType (VStr "string") (VStr "password") VUndef VUndef = Ok "SecretStr"
  /\ getPythonType (VStr "string") (VStr "binary") VUndef VUndef = Ok "bytes"
  /\ getPythonType (VStr "object") VUndef VUndef VUndef = Ok "Dict[str, Any]"
  /\ getPythonType (VStr "array") VUndef
                   (VObj [("type", VStr "array");
                          ("items", VObj [("type", VStr "string"); ("format", VStr "uuid")])])
                   VUndef
     = Ok "List[List[uuid.UUID]]".
Proof. repeat split. Qed.

Example person_scenario :
  exists name age,
    buildProcessedProperties
      (VObj [("name", VObj [("type", VStr "string"); ("default", VStr "John")]);
             ("age", VObj [("type", VStr "integer")])])
    = Ok [("name", name); ("age", age)]
    /\ get name "type" = Ok (VStr "str")
    /\ get name "default" = Ok (VStr (quoted "John"))
    /\ get age "type" = Ok (VStr "int")
    /\ get age "default" = Ok VUndef.
Proof. eexists. eexists. repeat split. Qed.

Example suite_run :
  fst (generate Examples.suite_env 2 Examples.suite_api "out" Examples.fresh_world) = Ok tt
  /\ List.map fst (written (snd (generate Examples.suite_env 2 Examples.suite_api "out"
                                          Examples.fresh_world)))
     = ["out/models/baseperson.py"; "out/models/extendedperson.py";
        "out/models/emptyone.py"; "out/apis/pets.py"; "out/apis/users.py";
        "out/apis/__init__.py"]
  /\ assoc "out/models/extendedperson.py"
           (written (snd (generate Examples.suite_env 2 Examples.suite_api "out"
                                   Examples.fresh_world)))
     = Some "class ExtendedPerson # merged props: baseName, extraField"
  /\ assoc "out/apis/pets.py"
           (written (snd (generate Examples.suite_env 2 Examples.suite_api "out"
                                   Examples.fresh_world)))
     = Some "# routes for pets: 2"
  /\ assoc "out/apis/__init__.py"
           (written (snd (generate Examples.suite_env 2 Examples.suite_api "out"
                                   Examples.fresh_world)))
     = Some (aggregatorContent ["pets"; "users"])
  /\ Str.includes "from .users import router as users_router"
                  (aggregatorContent ["pets"; "users"]) = true
  /\ errors_of (log (snd (generate Examples.suite_env 2 Examples.suite_api "out"
                                   Examples.fresh_world)))
     = [].
Proof. repeat split. Qed.

(* ================================================================== *)
(** * Part III: further properties of the code *)
(* ================================================================== *)

(** ** TypeMapper: termination and the recursive case *)

(** one call of the type mapper *)
Lemma getPythonType_rec_S (fuel : nat) (kind format items ref : value) :
  getPythonType_rec (S fuel) kind format items ref
  = (if truthy ref then
       modelName <- last_segment ref ;;
       Ok (sanitizeName modelName)
     else if negb (truthy kind) then Ok "Any"
     else if is_str kind "integer" then Ok "int"
     else if is_str kind "number" then
       (if is_str format "float" || is_str format "double" then Ok "float"
        else Ok "float")
     else if is_str kind "boolean" then Ok "bool"
     else if is_str kind "string" then
       (if is_str format "date" then Ok "datetime.date"
        else if is_str format "date-time" then Ok "datetime.datetime"
        else if is_str format "uuid" then Ok "uuid.UUID"
        else if is_str format "email" then Ok "EmailStr"
        else if is_str format "uri" || is_str format "url" then Ok "AnyUrl"
        else if is_str format "byte" || is_str format "binary" then Ok "bytes"
        else if is_str format "password" then Ok "SecretStr"
        else Ok "str")
     else if is_str kind "array" then
       childType <-
         (if truthy items then
            childRef <- get items "$ref" ;;
            itemType <- get items "type" ;;
            itemFormat <- get items "format" ;;
            itemItems <- get items "items" ;;
            getPythonType_rec fuel itemType itemFormat itemItems childRef
          else Ok "Any") ;;
       Ok ("List[" ++ childType ++ "]")
     else if is_str kind "object" then Ok "Dict[str, Any]"
     else Ok "Any").
Proof. reflexivity. Qed.

(** more fuel does not change an outcome that was reached *)
Lemma getPythonType_rec_more_fuel (fuel : nat) :
  forall kind format items ref : value,
    getPythonType_rec fuel kind format items ref <> Diverge ->
    getPythonType_rec (S fuel) kind format items ref
      = getPythonType_rec fuel kind format items ref.
Proof.
  induction fuel as [|fuel IH]; intros kind format items ref Hret.
  - now contradiction Hret.
  - rewrite (getPythonType_rec_S (S fuel)).
    rewrite (getPythonType_rec_S fuel kind format items ref) in *.
    destruct (truthy ref); [reflexivity|].
    destruct (negb (truthy kind)); [reflexivity|].
    destruct (is_str kind "integer"); [reflexivity|].
    destruct (is_str kind "number"); [reflexivity|].
    destruct (is_str kind "boolean"); [reflexivity|].
    destruct (is_str kind "string"); [reflexivity|].
    destruct (is_str kind "array"); [|reflexivity].
    destruct (truthy items); [|reflexivity].
    destruct (get items "$ref") as [childRef| |]; cbn [bind] in *; try reflexivity.
    destruct (get items "type") as [itemType| |]; cbn [bind] in *; try reflexivity.
    destruct (get items "format") as [itemFormat| |]; cbn [bind] in *; try reflexivity.
    destruct (get items "items") as [itemItems| |]; cbn [bind] in *; try reflexivity.
    rewrite IH; [reflexivity|].
    intros Hdiv. apply Hret. now rewrite Hdiv.
Qed.

Lemma getPythonType_rec_fuel_le (n m : nat) (kind format items ref : value) :
  n <= m ->
  getPythonType_rec n kind format items ref <> Diverge ->
  getPythonType_rec m kind format items ref = getPythonType_rec n kind format items ref.
Proof.
  induction 1 as [|m Hle IH]; intros Hret; [reflexivity|].
  rewrite getPythonType_rec_more_fuel; rewrite (IH Hret); [reflexivity | exact Hret].
Qed.

(** with enough fuel the recursion computes [getPythonType] *)
Lemma getPythonType_rec_enough (fuel : nat) (kind format items ref : value) :
  getPythonType_rec fuel kind format items ref <> Diverge ->
  getPythonType_rec fuel kind format items ref = getPythonType kind format items ref.
Proof.
  intros Hret. unfold getPythonType.
  destruct (Nat.le_ge_cases fuel (2 + depth items)) as [Hle | Hge].
  - symmetry. now apply getPythonType_rec_fuel_le.
  - apply getPythonType_rec_fuel_le; [exact Hge|]. apply getPythonType_rec_returns. lia.
Qed.

(** X1.  The type mapper terminates on every input, however deeply [items]
    is nested, and the type of an array is [List[T]] for the type [T] the
    mapper gives to the array's [items]; an array without [items] is a
    [List[Any]]. *)
Theorem getPythonType_array (format items : value) :
  (forall kind ref, getPythonType kind format items ref <> Diverge)
  /\ (truthy items = false ->
      getPythonType (VStr "array") format items VUndef = Ok "List[Any]")
  /\ (truthy items = true ->
      getPythonType (VStr "array") format items VUndef
      = (childRef <- get items "$ref" ;;
         itemType <- get items "type" ;;
         itemFormat <- get items "format" ;;
         itemItems <- get items "items" ;;
         childType <- getPythonType itemType itemFormat itemItems childRef ;;
         Ok ("List[" ++ childType ++ "]"))).
Proof.
  split; [intros kind ref; apply getPythonType_total|]. split.
  - intros Hi. unfold getPythonType. cbn [Nat.add].
    rewrite getPythonType_rec_S. cbn [truthy negb is_str String.eqb Ascii.eqb Bool.eqb].
    now rewrite Hi.
  - intros Hi.
    pose proof (getPythonType_total (VStr "array") format items VUndef) as Hret.
    unfold getPythonType in Hret |- * at 1. cbn [Nat.add] in *.
    rewrite getPythonType_rec_S in *.
    cbn [truthy negb is_str String.eqb Ascii.eqb Bool.eqb] in *.
    rewrite Hi in *.
    destruct (get items "$ref") as [childRef| |]; cbn [bind] in *; try reflexivity.
    destruct (get items "type") as [itemType| |]; cbn [bind] in *; try reflexivity.
    destruct (get items "format") as [itemFormat| |]; cbn [bind] in *; try reflexivity.
    destruct (get items "items") as [itemItems| |]; cbn [bind] in *; try reflexivity.
    rewrite getPythonType_rec_enough; [reflexivity|].
    intros Hdiv. apply Hret. now rewrite Hdiv.
Qed.

Lemma getPythonType_array_witness :
  getPythonType (VStr "array") VUndef
                (VObj [("type", VStr "array"); ("items", VObj [("type", VStr "integer")])])
                VUndef
  = Ok "List[List[int]]".
Proof.
  rewrite (proj2 (proj2 (getPythonType_array VUndef
            (VObj [("type", VStr "array"); ("items", VObj [("type", VStr "integer")])])))
            eq_refl).
  reflexivity.
Defined.

(** X2.  The format only matters for strings: for every kind other than
    [string], two calls that differ in the format alone have the same
    outcome.  In particular a number is a [float] whatever its format. *)
Theorem getPythonType_format_only_for_strings
  (kind format format' items ref : value)
  (Hkind : is_str kind "string" = false) :
  getPythonType kind format items ref = getPythonType kind format' items ref.
Proof.
  unfold getPythonType. cbn [Nat.add]. rewrite !getPythonType_rec_S, Hkind.
  destruct (truthy ref); [reflexivity|].
  destruct (negb (truthy kind)); [reflexivity|].
  destruct (is_str kind "integer"); [reflexivity|].
  destruct (is_str kind "number").
  { destruct (is_str format "float" || is_str format "double");
      destruct (is_str format' "float" || is_str format' "double"); reflexivity. }
  reflexivity.
Qed.

Lemma getPythonType_format_only_for_strings_witness :
  getPythonType (VStr "number") (VStr "double") VUndef VUndef
  = getPythonType (VStr "number") (VStr "int64") VUndef VUndef.
Proof.
  exact (getPythonType_format_only_for_strings
           (VStr "number") (VStr "double") (VStr "int64") VUndef VUndef eq_refl).
Defined.

(** ** References: only the last path segment counts *)

Lemma split_no_separator (sep : ascii) (s : string) :
  Str.all (fun c => negb (Ascii.eqb c sep)) s = true ->
  Str.split sep s = [s].
Proof.
  induction s as [|c s IH]; simpl; [reflexivity|].
  intros H. apply andb_true_iff in H as [Hc Hs].
  apply negb_true_iff in Hc. rewrite Hc, (IH Hs). reflexivity.
Qed.

Lemma split_not_nil (sep : ascii) (s : string) : Str.split sep s <> [].
Proof.
  induction s as [|c s IH]; simpl; [discriminate|].
  destruct (Ascii.eqb c sep); [discriminate|].
  destruct (Str.split sep s); discriminate.
Qed.

Lemma last_cons_not_nil {A : Type} (x d : A) (l : list A) :
  l <> [] -> List.last (x :: l) d = List.last l d.
Proof. destruct l; [contradiction | reflexivity]. Qed.

Lemma split_last_append (sep : ascii) (prefix name : string) :
  List.last (Str.split sep (prefix ++ String sep name)) EmptyString
  = List.last (Str.split sep name) EmptyString.
Proof.
  induction prefix as [|c prefix IH]; simpl.
  - rewrite Ascii.eqb_refl. apply last_cons_not_nil, split_not_nil.
  - destruct (Ascii.eqb c sep).
    + rewrite last_cons_not_nil; [exact IH | apply split_not_nil].
    + pose proof (split_not_nil sep (prefix ++ String sep name)) as Hne.
      destruct (Str.split sep (prefix ++ String sep name)) as [|piece rest] eqn:E;
        [contradiction|].
      destruct rest as [|piece' rest].
      * (* the suffix alone has at least two pieces *)
        exfalso. clear IH Hne. revert piece E.
        induction prefix as [|d prefix IHp]; simpl; intros piece E.
        -- rewrite Ascii.eqb_refl in E. injection E as _ E.
           now apply split_not_nil in E.
        -- destruct (Ascii.eqb d sep).
           ++ injection E as _ E. now apply split_not_nil in E.
           ++ destruct (Str.split sep (prefix ++ String sep name)) as [|p [|p' r]] eqn:E'.
              ** now apply split_not_nil in E'.
              ** now apply (IHp p).
              ** discriminate.
      * exact IH.
Qed.

(** X3.  Whatever precedes the last slash of a reference is ignored: a
    reference [prefix/name], with no slash in [name], resolves to the
    entity called [name], and the type mapper names its type after
    [name]. *)
Theorem reference_last_segment (prefix name : string) (components : value)
  (kind format items : value)
  (Hname : Str.all (fun c => negb (Ascii.eqb c "/")) name = true) :
  resolveRef (VStr (prefix ++ "/" ++ name)) components = get components name
  /\ getPythonType kind format items (VStr (prefix ++ "/" ++ name))
     = Ok (sanitizeName name)
  /\ extractRefName (VStr (prefix ++ "/" ++ name)) = name.
Proof.
  assert (Hlast : List.last (Str.split "/" (prefix ++ "/" ++ name)) EmptyString = name).
  { change (prefix ++ "/" ++ name) with (prefix ++ String "/" name).
    now rewrite split_last_append, split_no_separator. }
  assert (Htruthy : truthy (VStr (prefix ++ "/" ++ name)) = true).
  { apply truthy_VStr. destruct prefix; discriminate. }
  split; [|split].
  - unfold resolveRef, last_segment. rewrite Hlast. reflexivity.
  - unfold getPythonType. cbn [Nat.add]. rewrite getPythonType_rec_S, Htruthy.
    unfold last_segment. rewrite Hlast. reflexivity.
  - unfold extractRefName. rewrite Htruthy. cbn [negb typeof String.eqb orb].
    simpl. exact Hlast.
Qed.

Lemma reference_last_segment_witness :
  resolveRef (VStr "#/components/parameters/Base") Examples.base_components
  = get Examples.base_components "Base".
Proof.
  exact (proj1 (reference_last_segment "#/components/parameters" "Base"
                  Examples.base_components VUndef VUndef VUndef eq_refl)).
Defined.

(** ** NameSanitizer and the other string helpers *)

Lemma str_map_length (f : ascii -> ascii) (s : string) :
  String.length (Str.map f s) = String.length s.
Proof. induction s as [|c s IH]; simpl; [reflexivity | now rewrite IH]. Qed.

Lemma str_append_length (s t : string) :
  String.length (s ++ t) = String.length s + String.length t.
Proof. induction s as [|c s IH]; simpl; [reflexivity | now rewrite IH]. Qed.

Lemma str_append_assoc (s t u : string) : (s ++ t) ++ u = s ++ t ++ u.
Proof. induction s as [|c s IH]; simpl; [reflexivity | now rewrite IH]. Qed.

Lemma str_map_append (f : ascii -> ascii) (s t : string) :
  Str.map f (s ++ t) = Str.map f s ++ Str.map f t.
Proof. induction s as [|c s IH]; simpl; [reflexivity | now rewrite IH]. Qed.

(** X4.  A sanitized name consists of word characters only and is at most
    one character longer than the name; the names the sanitizer leaves
    alone are exactly those made of word characters that are not reserved
    and do not start with a digit.  (The empty name is one of them: it
    stays empty.) *)
Theorem sanitizeName_fixed_points (x : string) :
  Str.all Str.is_word (sanitizeName x) = true
  /\ String.length x <= String.length (sanitizeName x) <= String.length x + 1
  /\ (sanitizeName x = x
      <-> Str.all Str.is_word x = true
          /\ is_reserved x = false
          /\ starts_with_digit x = false).
Proof.
  split; [apply sanitizeName_all_word|].
  assert (Hlen : String.length (replace_non_word x) = String.length x)
    by apply str_map_length.
  split.
  - destruct (sanitizeName_cases x) as [[_ E] | [[_ [_ E]] | [_ [_ E]]]]; rewrite E.
    + rewrite str_append_length, Hlen. simpl. lia.
    + simpl. rewrite Hlen. lia.
    + rewrite Hlen. lia.
  - split.
    + intros Hfix.
      assert (Hw : Str.all Str.is_word x = true)
        by (rewrite <- Hfix; apply sanitizeName_all_word).
      pose proof (replace_non_word_fixed x Hw) as Hx.
      split; [exact Hw|].
      destruct (sanitizeName_cases x) as [[_ E] | [[_ [_ E]] | [Hr [Hd E]]]];
        rewrite Hx in *.
      * exfalso. rewrite Hfix in E. apply (f_equal String.length) in E.
        rewrite str_append_length in E. simpl in E. lia.
      * exfalso. rewrite Hfix in E. apply (f_equal String.length) in E.
        simpl in E. lia.
      * now split.
    + intros [Hw [Hr Hd]]. unfold sanitizeName.
      rewrite (replace_non_word_fixed x Hw), Hr. cbv zeta. now rewrite Hd.
Qed.

Lemma reserved_words_no_underscore (w : string) :
  is_reserved w = true -> Str.all (fun c => negb (Ascii.eqb c "_")) w = true.
Proof.
  intros H. apply is_reserved_In in H.
  assert (Hall : forallb (Str.all (fun c => negb (Ascii.eqb c "_"))) PYTHON_RESERVED_WORDS
                 = true) by reflexivity.
  rewrite forallb_forall in Hall. now apply Hall.
Qed.

(** the sanitized form of a text that holds an underscore is not a
    reserved word *)
Lemma underscore_not_reserved (s t : string) :
  is_reserved (replace_non_word (s ++ "_" ++ t)) = false.
Proof.
  destruct (is_reserved (replace_non_word (s ++ "_" ++ t))) eqn:E; [|reflexivity].
  apply reserved_words_no_underscore in E.
  unfold replace_non_word in E. rewrite str_map_append, all_append in E.
  apply andb_true_iff in E as [_ E]. discriminate.
Qed.

Lemma starts_with_digit_append (s t : string) :
  s <> EmptyString -> starts_with_digit (s ++ t) = starts_with_digit s.
Proof. destruct s; [congruence | reflexivity]. Qed.

(** X5.  The name of an enum is the sanitized name of [schema_property]
    followed by [_Enum]: the suffix is never altered by the sanitizer, a
    leading digit is guarded as in the name itself, and the reserved-word
    rule never applies, neither to the name nor to its stem. *)
Theorem getEnumName_suffix (schemaName propName : string) :
  getEnumName schemaName propName
  = sanitizeName (schemaName ++ "_" ++ propName) ++ "_Enum"
  /\ sanitizeName (schemaName ++ "_" ++ propName)
     = (if starts_with_digit schemaName then "_" else EmptyString)
         ++ replace_non_word schemaName ++ "_" ++ replace_non_word propName
  /\ is_reserved (getEnumName schemaName propName) = false.
Proof.
  unfold getEnumName.
  set (body := schemaName ++ "_" ++ propName).
  assert (Hassoc : schemaName ++ "_" ++ propName ++ "_Enum" = body ++ "_Enum").
  { unfold body. now rewrite !str_append_assoc. }
  rewrite Hassoc.
  assert (Hsafe : replace_non_word (body ++ "_Enum") = replace_non_word body ++ "_Enum").
  { unfold replace_non_word. now rewrite str_map_append. }
  assert (Hr : is_reserved (replace_non_word body ++ "_Enum") = false).
  { destruct (is_reserved (replace_non_word body ++ "_Enum")) eqn:E; [|reflexivity].
    apply reserved_words_no_underscore in E. rewrite all_append in E.
    apply andb_true_iff in E as [_ E]. discriminate. }
  assert (Hbody : is_reserved (replace_non_word body) = false)
    by apply underscore_not_reserved.
  assert (Hne : replace_non_word body <> EmptyString).
  { unfold body, replace_non_word. rewrite str_map_append.
    destruct (Str.map _ schemaName); discriminate. }
  assert (Hsplit : replace_non_word body
                   = replace_non_word schemaName ++ "_" ++ replace_non_word propName).
  { unfold body, replace_non_word. now rewrite str_map_append. }
  assert (Hdigit : starts_with_digit (replace_non_word body) = starts_with_digit schemaName).
  { rewrite Hsplit. unfold replace_non_word, starts_with_digit.
    destruct schemaName as [|c rest]; [reflexivity|]. simpl.
    destruct (Str.is_word c) eqn:Ew; [reflexivity|].
    unfold Str.is_word in Ew. apply orb_false_iff in Ew as [Ew _].
    apply orb_false_iff in Ew as [Ew _]. apply orb_false_iff in Ew as [Ew _].
    now rewrite Ew. }
  assert (Hname : sanitizeName (body ++ "_Enum") = sanitizeName body ++ "_Enum").
  { unfold sanitizeName. rewrite Hsafe, Hr, Hbody. cbv zeta.
    rewrite (starts_with_digit_append _ _ Hne).
    destruct (starts_with_digit (replace_non_word body)); [|reflexivity].
    now rewrite str_append_assoc. }
  split; [exact Hname|]. split.
  - unfold sanitizeName. rewrite Hbody. cbv zeta. rewrite Hdigit, Hsplit.
    destruct (starts_with_digit schemaName); reflexivity.
  - rewrite Hname.
    destruct (is_reserved (sanitizeName body ++ "_Enum")) eqn:E; [|reflexivity].
    apply reserved_words_no_underscore in E. rewrite all_append in E.
    apply andb_true_iff in E as [_ E]. discriminate.
Qed.

Lemma prefix_other_head (a b : ascii) (pat s : string) :
  a <> b -> String.prefix (String a pat) (String b s) = false.
Proof. intros H. simpl. destruct (ascii_dec a b); [contradiction | reflexivity]. Qed.

Lemma replace_all_no_head (a : ascii) (pat rep s : string) :
  Str.all (fun c => negb (Ascii.eqb c a)) s = true ->
  Str.replace_all (String a pat) rep s = s.
Proof.
  unfold Str.replace_all.
  induction s as [|c s IH]; [reflexivity|].
  intros H. simpl in H. apply andb_true_iff in H as [Hc Hs].
  apply negb_true_iff, Ascii.eqb_neq in Hc.
  cbn [Str.replace_from]. rewrite prefix_other_head by congruence.
  now rewrite (IH Hs).
Qed.

(** X6.  A pattern without an ampersand is not changed by the entity
    decoder, so it reaches the regular-expression literal verbatim. *)
Theorem decodeHtmlEntities_plain (str : string)
  (Hplain : Str.all (fun c => negb (Ascii.eqb c "&")) str = true) :
  decodeHtmlEntities str = str
  /\ regexLiteral (VStr str)
     = if String.eqb str EmptyString then Ok VUndef else Ok (VStr ("r" ++ quoted str)).
Proof.
  assert (Hd : decodeHtmlEntities str = str).
  { unfold decodeHtmlEntities.
    rewrite (replace_all_no_head "&" "quot;" _ str Hplain).
    exact (replace_all_no_head "&" "amp;" _ str Hplain). }
  split; [exact Hd|].
  unfold regexLiteral. simpl truthy.
  destruct (String.eqb str EmptyString); simpl; [reflexivity|]. now rewrite Hd.
Qed.

Lemma decodeHtmlEntities_plain_witness :
  decodeHtmlEntities "^[a-z]+$" = "^[a-z]+$".
Proof. exact (proj1 (decodeHtmlEntities_plain "^[a-z]+$" eq_refl)). Defined.

Lemma sanitizePath_replace_non_word (s : string) :
  replace_non_word (sanitizePath s) = replace_non_word s.
Proof.
  unfold replace_non_word, sanitizePath.
  induction s as [|c s IH]; simpl; [reflexivity|]. rewrite IH. f_equal.
  destruct (Ascii.eqb c "/") eqn:E1; [apply Ascii.eqb_eq in E1; now subst|].
  destruct (Ascii.eqb c "{") eqn:E2; [apply Ascii.eqb_eq in E2; now subst|].
  destruct (Ascii.eqb c "}") eqn:E3; [apply Ascii.eqb_eq in E3; now subst|].
  reflexivity.
Qed.

(** X7.  The [sanitizePath] template helper keeps the length of a path,
    leaves no slash and no brace in it, changes nothing when applied a
    second time, and a sanitized path has the same sanitized name as the
    path itself. *)
Theorem sanitizePath_spec (str : string) :
  String.length (sanitizePath str) = String.length str
  /\ Str.all (fun c => negb (Ascii.eqb c "/" || Ascii.eqb c "{" || Ascii.eqb c "}"))
             (sanitizePath str) = true
  /\ sanitizePath (sanitizePath str) = sanitizePath str
  /\ sanitizeName (sanitizePath str) = sanitizeName str.
Proof.
  split; [apply str_map_length|]. split; [|split].
  - unfold sanitizePath. induction str as [|c s IH]; simpl; [reflexivity|].
    rewrite IH, andb_true_r.
    destruct (Ascii.eqb c "/" || Ascii.eqb c "{" || Ascii.eqb c "}") eqn:E.
    + reflexivity.
    + now rewrite E.
  - unfold sanitizePath. induction str as [|c s IH]; simpl; [reflexivity|].
    rewrite IH. f_equal.
    destruct (Ascii.eqb c "/" || Ascii.eqb c "{" || Ascii.eqb c "}") eqn:E.
    + reflexivity.
    + now rewrite E.
  - unfold sanitizeName. now rewrite sanitizePath_replace_non_word.
Qed.

(** ** SchemaResolver: recursion, cycles and dangling references *)

Lemma foldM_more_defined {A B : Type} (f g : A -> B -> result A) (l : list B) :
  (forall acc x, f acc x <> Diverge -> g acc x = f acc x) ->
  forall acc, foldM f l acc <> Diverge -> foldM g l acc = foldM f l acc.
Proof.
  intros Hfg. induction l as [|x l IH]; intros acc Hret; simpl in *; [reflexivity|].
  rewrite Hfg.
  - destruct (f acc x) as [acc'| |]; cbn [bind] in *; auto.
  - intros Hdiv. apply Hret. now rewrite Hdiv.
Qed.

(** more fuel does not change an outcome that was reached *)
Lemma mergeComplexSchema_more_fuel (fuel : nat) :
  forall schema components,
    mergeComplexSchema fuel schema components <> Diverge ->
    mergeComplexSchema (S fuel) schema components
      = mergeComplexSchema fuel schema components.
Proof.
  induction fuel as [|fuel IH]; intros schema components Hret.
  - now contradiction Hret.
  - rewrite (mergeComplexSchema_step (S fuel)).
    rewrite (mergeComplexSchema_step fuel) in *.
    destruct (get schema "allOf") as [allOf| |]; cbn [bind] in *; try reflexivity.
    destruct (truthy allOf); [|reflexivity].
    destruct (iterate allOf) as [subs| |]; cbn [bind] in *; try reflexivity.
    apply foldM_more_defined; [|exact Hret].
    intros merged sub Hsub. unfold resolve_member in *.
    destruct (member_target components sub) as [target| |]; cbn [bind] in *;
      try reflexivity.
    rewrite IH; [reflexivity|].
    intros Hdiv. apply Hsub. now rewrite Hdiv.
Qed.

(** once an outcome is reached within some bound on the recursion, every
    larger bound gives the same outcome *)
Lemma mergeComplexSchema_fuel_independent
  (n m : nat) (schema components : value)
  (Hle : n <= m)
  (Hret : mergeComplexSchema n schema components <> Diverge) :
  mergeComplexSchema m schema components = mergeComplexSchema n schema components.
Proof.
  induction Hle as [|m Hle IH]; [reflexivity|].
  rewrite mergeComplexSchema_more_fuel; rewrite IH; [reflexivity | exact Hret].
Qed.

Lemma bind_not_Diverge {A B : Type} (e : result A) (k : A -> result B) :
  e <> Diverge -> (forall a, e = Ok a -> k a <> Diverge) -> bind e k <> Diverge.
Proof. destruct e; cbn [bind]; [auto | discriminate | congruence]. Qed.

Lemma iterate_not_Diverge (v : value) : iterate v <> Diverge.
Proof. destruct v; discriminate. Qed.

Lemma set_not_Diverge (o : value) (k : string) (x : value) : Js.set o k x <> Diverge.
Proof. destruct o; discriminate. Qed.

Lemma mergeInto_not_Diverge (base extra : value) : mergeInto base extra <> Diverge.
Proof.
  unfold mergeInto.
  apply bind_not_Diverge; [apply get_not_Diverge|]. intros extraProperties _.
  apply bind_not_Diverge.
  - destruct (truthy extraProperties); [|discriminate].
    apply bind_not_Diverge; [apply get_not_Diverge|]. intros. apply set_not_Diverge.
  - intros base' _.
    apply bind_not_Diverge; [apply get_not_Diverge|]. intros extraRequired _.
    destruct (truthy extraRequired); [|discriminate].
    apply bind_not_Diverge; [apply get_not_Diverge|]. intros.
    apply bind_not_Diverge; [apply iterate_not_Diverge|]. intros.
    apply bind_not_Diverge; [apply iterate_not_Diverge|]. intros.
    apply set_not_Diverge.
Qed.

Lemma foldM_not_Diverge {A B : Type} (f : A -> B -> result A) (l : list B) :
  (forall acc x, In x l -> f acc x <> Diverge) ->
  forall acc, foldM f l acc <> Diverge.
Proof.
  induction l as [|x l IH]; intros Hf acc; simpl; [discriminate|].
  apply bind_not_Diverge; [apply Hf; now left|].
  intros acc' _. apply IH. intros a y Hy. apply Hf. now right.
Qed.

Lemma mapM_not_Diverge {A B : Type} (f : A -> result B) (l : list A) :
  (forall x, f x <> Diverge) -> mapM f l <> Diverge.
Proof.
  intros Hf. induction l as [|x l IH]; simpl; [discriminate|].
  apply bind_not_Diverge; [apply Hf|]. intros y _.
  apply bind_not_Diverge; [exact IH|]. discriminate.
Qed.

Lemma union_member_not_Diverge (sub : value) : union_member sub <> Diverge.
Proof.
  unfold union_member.
  apply bind_not_Diverge; [apply get_not_Diverge|]. intros ref _.
  destruct (truthy ref); [|discriminate].
  apply bind_not_Diverge; [apply last_segment_not_Diverge|]. discriminate.
Qed.

Lemma element_depth (x : value) (l : list value) : In x l -> depth x < depth (VArr l).
Proof.
  simpl. induction l as [|y l IH]; simpl; [tauto|].
  intros [-> | Hin]; [lia|]. specialize (IH Hin). lia.
Qed.

(** an inline [allOf] member lies deeper in the schema than the schema *)
Lemma allOf_member_depth (schema allOf sub : value) (subs : list value) :
  get schema "allOf" = Ok allOf ->
  iterate allOf = Ok subs ->
  In sub subs ->
  depth sub < depth schema.
Proof.
  intros Hget Hiter Hin.
  assert (Hlt : depth allOf < depth schema \/ allOf = VUndef).
  { destruct schema as [| |b|z|s|l|kv]; simpl in Hget; try discriminate;
      try (injection Hget as <-; now right).
    destruct (assoc "allOf" kv) as [x|] eqn:E.
    - injection Hget as <-. left. now apply (assoc_depth "allOf").
    - injection Hget as <-. now right. }
  destruct Hlt as [Hlt | ->]; [|discriminate].
  destruct allOf as [| |b|z|s|l|kv]; simpl in Hiter; try discriminate;
    injection Hiter as <-.
  - apply in_map_iff in Hin as [c [<- _]]. simpl. lia.
  - apply element_depth in Hin. lia.
Qed.

(** resolution within the bound that the entities need and the nesting of
    the schema adds *)
Lemma mergeComplexSchema_within (n : nat) (components : value) :
  (forall name entity, get components name = Ok entity ->
                       mergeComplexSchema n entity components <> Diverge) ->
  forall d schema,
    depth schema <= d ->
    mergeComplexSchema (n + S d) schema components <> Diverge.
Proof.
  intros Hentities. induction d as [|d IH]; intros schema Hd;
    rewrite Nat.add_succ_r, mergeComplexSchema_step.
  - apply bind_not_Diverge; [apply get_not_Diverge|]. intros allOf Hget.
    destruct (truthy allOf) eqn:Ht.
    + apply bind_not_Diverge; [apply iterate_not_Diverge|]. intros subs Hiter.
      destruct subs as [|sub subs]; [discriminate|].
      pose proof (allOf_member_depth _ _ sub _ Hget Hiter (or_introl eq_refl)). lia.
    + apply bind_not_Diverge; [apply get_not_Diverge|]. intros oneOf _.
      destruct (truthy oneOf); [|discriminate].
      destruct oneOf; try discriminate.
      apply bind_not_Diverge; [apply mapM_not_Diverge, union_member_not_Diverge|].
      discriminate.
  - apply bind_not_Diverge; [apply get_not_Diverge|]. intros allOf Hget.
    destruct (truthy allOf) eqn:Ht.
    + apply bind_not_Diverge; [apply iterate_not_Diverge|]. intros subs Hiter.
      apply foldM_not_Diverge. intros merged sub Hin.
      apply bind_not_Diverge; [|intros; apply mergeInto_not_Diverge].
      unfold resolve_member, member_target.
      apply bind_not_Diverge.
      * apply bind_not_Diverge; [apply get_not_Diverge|]. intros ref _.
        destruct (truthy ref); [|discriminate].
        unfold resolveRef.
        apply bind_not_Diverge; [apply last_segment_not_Diverge|]. intros.
        apply get_not_Diverge.
      * intros target Htarget.
        destruct (get sub "$ref") as [ref| |] eqn:Href; cbn [bind] in Htarget;
          try discriminate.
        destruct (truthy ref).
        -- unfold resolveRef in Htarget.
           destruct (last_segment ref) as [name| |]; cbn [bind] in Htarget;
             try discriminate.
           rewrite (mergeComplexSchema_fuel_independent n (n + S d)); [|lia|];
             now apply (Hentities name).
        -- injection Htarget as <-. apply IH.
           pose proof (allOf_member_depth _ _ sub _ Hget Hiter Hin). lia.
    + apply bind_not_Diverge; [apply get_not_Diverge|]. intros oneOf _.
      destruct (truthy oneOf); [|discriminate].
      destruct oneOf; try discriminate.
      apply bind_not_Diverge; [apply mapM_not_Diverge, union_member_not_Diverge|].
      discriminate.
Qed.

(** X8.  Nesting alone never makes resolution run on: if every entity of
    [components] is resolved, or rejected, within [n] nested calls, then
    every schema is resolved, or rejected, against these components within
    [n + 1 + depth schema] nested calls, and no larger bound changes the
    outcome.  Only references can lead the resolver round in circles. *)
Theorem mergeComplexSchema_terminates
  (n fuel : nat) (schema components : value)
  (Hentities : forall name entity,
      get components name = Ok entity ->
      mergeComplexSchema n entity components <> Diverge)
  (Hfuel : n + S (depth schema) <= fuel) :
  mergeComplexSchema fuel schema components <> Diverge
  /\ mergeComplexSchema fuel schema components
     = mergeComplexSchema (n + S (depth schema)) schema components.
Proof.
  pose proof (mergeComplexSchema_within n components Hentities
                (depth schema) schema (le_n _)) as Hret.
  rewrite (mergeComplexSchema_fuel_independent _ fuel _ _ Hfuel Hret).
  split; [exact Hret | reflexivity].
Qed.

Lemma mergeComplexSchema_terminates_witness :
  mergeComplexSchema 9 Examples.extended_schema Examples.base_components
  = Ok (merged_object [("baseName", VObj [("type", VStr "string")]);
                       ("extraField", VObj [("type", VStr "integer")])]
                      [VStr "baseName"; VStr "extraField"]).
Proof.
  destruct (mergeComplexSchema_terminates
              1 9 Examples.extended_schema Examples.base_components) as [_ ->].
  - intros name entity Hget.
    unfold Examples.base_components in Hget. cbn [get assoc] in Hget.
    destruct (("Base" =? name)%string); injection Hget as <-; discriminate.
  - vm_compute. lia.
  - reflexivity.
Defined.

(** X9.  Resolution is idempotent: a resolved schema (a merged object, a
    union marker or a schema passed through) declares no composition any
    more, so resolving it again, against any entities, returns it
    unchanged. *)
Theorem mergeComplexSchema_idempotent
  (fuel fuel' : nat) (schema components components' resolved : value)
  (Hres : mergeComplexSchema fuel schema components = Ok resolved) :
  mergeComplexSchema (S fuel') resolved components' = Ok resolved.
Proof.
  destruct fuel as [|fuel]; [discriminate|].
  rewrite mergeComplexSchema_step in Hres.
  destruct (get schema "allOf") as [allOf| |] eqn:Ha; cbn [bind] in Hres; try discriminate.
  destruct (truthy allOf) eqn:Hta.
  - destruct (iterate allOf) as [subs| |]; cbn [bind] in Hres; try discriminate.
    apply (merge_loop_shape fuel components subs [] []) in Hres.
    destruct Hres as [props [req ->]]. reflexivity.
  - destruct (get schema "oneOf") as [oneOf| |] eqn:Ho; cbn [bind] in Hres; try discriminate.
    destruct (truthy oneOf) eqn:Hto.
    + destruct oneOf; try discriminate.
      destruct (mapM union_member elems); cbn [bind] in Hres; try discriminate.
      injection Hres as <-. reflexivity.
    + injection Hres as <-.
      rewrite mergeComplexSchema_step, Ha. cbn [bind]. rewrite Hta, Ho. cbn [bind].
      now rewrite Hto.
Qed.

Lemma mergeComplexSchema_idempotent_witness :
  mergeComplexSchema 1
    (merged_object
       [("baseName", VObj [("type", VStr "string")]);
        ("extraField", VObj [("type", VStr "integer")])]
       [VStr "baseName"; VStr "extraField"])
    VNull
  = Ok (merged_object
          [("baseName", VObj [("type", VStr "string")]);
           ("extraField", VObj [("type", VStr "integer")])]
          [VStr "baseName"; VStr "extraField"]).
Proof.
  exact (mergeComplexSchema_idempotent
           2 0 Examples.extended_schema Examples.base_components VNull _ eq_refl).
Defined.

(** X10.  A schema whose first [allOf] member stands for the schema itself
    is never resolved: whatever bound is put on the recursion, the
    recursion reaches it. *)
Theorem self_reference_never_resolves
  (schema components first : value) (others : list value)
  (HallOf : get schema "allOf" = Ok (VArr (first :: others)))
  (Hself : member_target components first = Ok schema) :
  forall fuel, mergeComplexSchema fuel schema components = Diverge.
Proof.
  induction fuel as [|fuel IH]; [reflexivity|].
  rewrite mergeComplexSchema_step, HallOf. cbn [bind truthy iterate foldM].
  unfold resolve_member. rewrite Hself. cbn [bind]. now rewrite IH.
Qed.

Lemma self_reference_never_resolves_witness :
  (node <- get self_referring_components "Node" ;;
   mergeComplexSchema 40 node self_referring_components) = Diverge.
Proof.
  exact (self_reference_never_resolves
           (VObj [("allOf", VArr [Examples.ref_to "Node"; VObj [("properties", VObj [])]])])
           self_referring_components
           (Examples.ref_to "Node") [VObj [("properties", VObj [])]]
           eq_refl eq_refl 40).
Defined.

(** X11.  References that name no entity.  In an [allOf] list whose earlier
    members resolve to schema fragments, a member whose reference names no
    entity (and no member every object inherits) makes resolution throw
    the error of reading [allOf] from [undefined].  A node without [allOf]
    is resolved without looking at the entities at all, so a [oneOf] member
    may name anything. *)
Theorem dangling_references
  (fuel : nat) (schema : value) (entities : list (string * value))
  (before after parts : list value) (sub : value) (ref : string) :
  (get schema "allOf" = Ok (VArr (before ++ sub :: after)) ->
   Forall2 (fun member part => resolve_member (S fuel) (VObj entities) member = Ok part)
           before parts ->
   Forall (fun part => NoDup (List.map fst (part_properties part))) parts ->
   Forall (fun part => required_is_names part = true) parts ->
   get sub "$ref" = Ok (VStr ref) ->
   ref <> EmptyString ->
   assoc (List.last (Str.split "/" ref) EmptyString) entities = None ->
   ~ In (List.last (Str.split "/" ref) EmptyString) object_prototype_members ->
   mergeComplexSchema (S (S fuel)) schema (VObj entities)
   = Throw (TypeError "Cannot read properties of undefined (reading 'allOf')"))
  /\ (forall allOf components components',
         get schema "allOf" = Ok allOf -> truthy allOf = false ->
         mergeComplexSchema fuel schema components
         = mergeComplexSchema fuel schema components').
Proof.
  split.
  - intros HallOf Hbefore Hnd Hreq Href Hne Hmissing _.
    assert (Hnn : Forall (fun part => nullish part = false) parts).
    { clear - Hbefore.
      induction Hbefore as [|m part ms parts Hm _ IH]; constructor; auto.
      now apply resolve_member_not_nullish in Hm. }
    destruct (merge_parts_spec parts Hnn Hnd Hreq [] [] (NoDup_nil _) (NoDup_nil _))
      as [props [req [Hfold _]]].
    rewrite mergeComplexSchema_step, HallOf. cbn [bind truthy iterate].
    rewrite foldM_app, (merge_loop_resolved _ _ _ _ Hbefore).
    change empty_merged with (merged_object [] []). rewrite Hfold. cbn [bind foldM].
    unfold resolve_member, member_target. rewrite Href. cbn [bind].
    apply truthy_VStr in Hne. rewrite Hne.
    unfold resolveRef, last_segment. cbn [bind get]. rewrite Hmissing. reflexivity.
  - intros allOf components components' Ha Hfalsy.
    destruct fuel as [|fuel']; [reflexivity|].
    rewrite !mergeComplexSchema_step, Ha. cbn [bind]. now rewrite Hfalsy.
Qed.

Lemma dangling_references_witness :
  mergeComplexSchema 2
    (VObj [("allOf", VArr [Examples.ref_to "Base"; Examples.ref_to "Missing"])])
    Examples.base_components
  = Throw (TypeError "Cannot read properties of undefined (reading 'allOf')").
Proof.
  exact (proj1 (dangling_references
                  0
                  (VObj [("allOf", VArr [Examples.ref_to "Base"; Examples.ref_to "Missing"])])
                  [("Base",
                    VObj [("properties", VObj [("baseName", VObj [("type", VStr "string")])]);
                          ("required", VArr [VStr "baseName"])])]
                  [Examples.ref_to "Base"] []
                  [VObj [("properties", VObj [("baseName", VObj [("type", VStr "string")])]);
                         ("required", VArr [VStr "baseName"])]]
                  (Examples.ref_to "Missing") "#/components/schemas/Missing")
           eq_refl
           ltac:(repeat constructor)
           ltac:(repeat constructor; simpl; tauto)
           ltac:(repeat constructor)
           eq_refl ltac:(discriminate) eq_refl
           ltac:(simpl; intuition discriminate)).
Defined.

(** ** Property processing, enums and imports *)

Lemma digit_of_uint_of_char (a : ascii) (d : option Decimal.uint) (u : Decimal.uint) :
  NilEmpty.uint_of_string (String a EmptyString) <> None \/ True ->
  DecimalString.uint_of_char a d = Some u -> Str.is_digit a = true.
Proof.
  intros _. destruct d as [d|]; [|discriminate].
  destruct a as [[] [] [] [] [] [] [] []]; simpl; try discriminate; reflexivity.
Qed.

(** an array index starts with a digit *)
Lemma array_index_digit (k : string) (n : N) :
  array_index k = Some n -> starts_with_digit k = true.
Proof.
  unfold array_index.
  destruct (NilEmpty.uint_of_string k) as [u|] eqn:Hu; [|discriminate].
  destruct (String.eqb (Str.of_N (N.of_uint u)) k && (N.of_uint u <? 4294967295)%N) eqn:Hc;
    [|discriminate].
  intros _. apply andb_true_iff in Hc as [Hk _]. apply String.eqb_eq in Hk.
  destruct k as [|a k].
  - exfalso. unfold Str.of_N, NilZero.string_of_uint in Hk.
    destruct (N.to_uint (N.of_uint u)); discriminate.
  - unfold starts_with_digit. simpl. simpl in Hu.
    now apply (digit_of_uint_of_char a _ u (or_intror I)) in Hu.
Qed.

(** a sanitized name is never an array index, so it is enumerated in
    insertion order *)
Lemma sanitizeName_not_index (x : string) : array_index (sanitizeName x) = None.
Proof.
  destruct (array_index (sanitizeName x)) eqn:E; [|reflexivity].
  apply array_index_digit in E.
  assert (Hd : starts_with_digit (sanitizeName x) = false).
  { destruct (sanitizeName_cases x) as [[Hr E'] | [[_ [_ E']] | [_ [Hd E']]]]; rewrite E'.
    - now apply reserved_no_digit_start.
    - reflexivity.
    - exact Hd. }
  congruence.
Qed.

Lemma obj_set_new_plain {A : Type} (kv : list (string * A)) (k : string) (v : A) :
  has_key k kv = false -> array_index k = None ->
  obj_set kv k v = (kv ++ [(k, v)])%list.
Proof. intros Hk Hi. unfold obj_set. now rewrite Hk, Hi. Qed.

(** X12.  When the property names of a schema sanitize to distinct
    identifiers (none of them [__proto__], which an assignment does not
    store as a property), the processed properties are enumerated in the
    order of the schema's properties, one per property, each under its
    sanitized name. *)
Theorem processed_order_preserved
  (properties : value) (processed : list (string * value))
  (Hdistinct : NoDup (List.map (fun prop => sanitizeName (fst prop))
                               (spread_entries properties)))
  (Hplain : Forall (fun prop => sanitizeName (fst prop) <> "__proto__")
                   (spread_entries properties))
  (Hbuilt : buildProcessedProperties properties = Ok processed) :
  List.map fst processed
  = List.map (fun prop => sanitizeName (fst prop)) (spread_entries properties)
  /\ Forall2 (fun prop entry => processProperty (fst prop) (snd prop) = Ok entry)
             (spread_entries properties) processed.
Proof.
  unfold buildProcessedProperties in Hbuilt. bind_inv Hbuilt.
  assert (x = spread_entries properties) as ->.
  { destruct properties; simpl in E; try discriminate; now injection E. }
  clear E.
  assert (Hgen : forall props acc out,
             NoDup (List.map fst acc ++ List.map (fun prop => sanitizeName (fst prop)) props) ->
             Forall (fun prop => sanitizeName (fst prop) <> "__proto__") props ->
             foldM (fun processedProperties prop =>
                      entry <- processProperty (fst prop) (snd prop) ;;
                      Ok (assign_property processedProperties (fst entry) (snd entry)))
                   props acc = Ok out ->
             exists added,
               out = (acc ++ added)%list
               /\ List.map fst added
                  = List.map (fun prop => sanitizeName (fst prop)) props
               /\ Forall2 (fun prop entry => processProperty (fst prop) (snd prop) = Ok entry)
                          props added).
  { induction props as [|[name ps] props IH]; intros acc out Hnd Hpl H; simpl in H.
    - injection H as <-. exists []. rewrite app_nil_r. repeat split. constructor.
    - bind_inv H. destruct x as [k e]. simpl in H.
      destruct (processProperty_entry _ _ _ _ E) as [-> _].
      inversion Hpl as [|? ? Hname Hpl']; subst. simpl in Hname.
      rewrite (assign_property_plain _ _ _ Hname) in H.
      simpl in Hnd.
      assert (Hfresh : has_key (sanitizeName name) acc = false).
      { apply has_key_false. intros Hin.
        apply (NoDup_app_disjoint _ _ (sanitizeName name) Hnd Hin). now left. }
      rewrite (obj_set_new_plain _ _ _ Hfresh (sanitizeName_not_index name)) in H.
      destruct (IH (acc ++ [(sanitizeName name, e)])%list out) as [added [-> [Hk Hall]]].
      + rewrite List.map_app. simpl. rewrite <- app_assoc. exact Hnd.
      + exact Hpl'.
      + exact H.
      + exists ((sanitizeName name, e) :: added). rewrite <- app_assoc.
        split; [reflexivity|]. split; [simpl; now rewrite Hk|].
        constructor; [exact E | exact Hall]. }
  destruct (Hgen _ [] processed Hdistinct Hplain Hbuilt) as [added [-> [Hk Hall]]].
  simpl. split; [exact Hk | exact Hall].
Qed.

Lemma processed_order_preserved_witness :
  exists processed,
    buildProcessedProperties
      (VObj [("zip code", VObj [("type", VStr "string")]);
             ("1st", VObj [("type", VStr "integer")]);
             ("class", VObj [("type", VStr "boolean")])])
    = Ok processed
    /\ List.map fst processed = ["zip_code"; "_1st"; "class_"].
Proof.
  eexists. split; [vm_compute; reflexivity|].
  exact (proj1 (processed_order_preserved
                  (VObj [("zip code", VObj [("type", VStr "string")]);
                         ("1st", VObj [("type", VStr "integer")]);
                         ("class", VObj [("type", VStr "boolean")])])
                  _
                  ltac:(repeat constructor; simpl; intuition discriminate)
                  ltac:(repeat constructor; discriminate)
                  eq_refl)).
Defined.

(** the record of a property is an object whose [type] is a string *)
Lemma processProperty_record (propName : string) (ps : value) (k : string) (entry : value) :
  processProperty propName ps = Ok (k, entry) ->
  exists fields pyType,
    entry = VObj fields
    /\ assoc "type" fields = Some (VStr pyType)
    /\ get entry "enum" = get ps "enum".
Proof.
  unfold processProperty. intros H.
  do 11 bind_inv H.
  injection H as <- <-.
  eexists. eexists. split; [reflexivity|]. split; reflexivity.
Qed.

Lemma built_entries_records (properties : value) (processed : list (string * value)) :
  buildProcessedProperties properties = Ok processed ->
  Forall (fun entry => exists fields, snd entry = VObj fields) processed.
Proof.
  intros Hbuilt. unfold buildProcessedProperties in Hbuilt. bind_inv Hbuilt.
  destruct (processed_last_wins _ _ _ Hbuilt) as [Hnd [Hproto Hassoc]].
  specialize (Hnd (NoDup_nil _)).
  apply Forall_forall. intros [k e] Hin. simpl.
  apply (In_assoc _ _ _ Hnd) in Hin.
  assert (Hk : k <> "__proto__").
  { intros ->. rewrite Hproto in Hin. discriminate. }
  apply (Hassoc k e Hk) in Hin as [[b [n [p [a [_ [Hp _]]]]]] | [Hacc _]]; [|discriminate].
  apply processProperty_record in Hp as [fields [ty [-> _]]]. now exists fields.
Qed.

Lemma get_set_same (fields : list (string * value)) (k : string) (x : value) :
  exists fields', set (VObj fields) k x = Ok (VObj fields')
                  /\ assoc k fields' = Some x
                  /\ forall k', k' <> k -> assoc k' fields' = assoc k' fields.
Proof.
  exists (obj_set fields k x). split; [reflexivity|]. split.
  - now rewrite assoc_obj_set, String.eqb_refl.
  - intros k' Hne. rewrite assoc_obj_set.
    destruct (k =? k') eqn:E; [|reflexivity].
    apply String.eqb_eq in E. congruence.
Qed.

Lemma foldM_cons {A B : Type} (f : A -> B -> result A) (x : B) (l : list B) (acc : A) :
  foldM f (x :: l) acc = (acc' <- f acc x ;; foldM f l acc').
Proof. reflexivity. Qed.

(** the loop of [processEnums], from any accumulator *)
Lemma processEnums_loop (schemaName : string) (processed : list (string * value)) :
  Forall (fun entry => exists fields, snd entry = VObj fields) processed ->
  forall created0 updated0,
  exists created updated,
    foldM (fun acc prop =>
             let '(createdEnums, updated) := acc in
             let '(propKey, ps) := prop in
             enum <- get ps "enum" ;;
             if truthy enum && isArray enum then
               let enumName := getEnumName schemaName propKey in
               ps' <- set ps "type" (VStr enumName) ;;
               Ok ((createdEnums ++ [VObj [("enumName", VStr enumName); ("values", enum)]])%list,
                   (updated ++ [(propKey, ps')])%list)
             else Ok (createdEnums, (updated ++ [(propKey, ps)])%list))
          processed (created0, updated0)
    = Ok ((created0 ++ created)%list, (updated0 ++ updated)%list)
    /\ created
       = List.flat_map
           (fun prop =>
              match enum_values (snd prop) with
              | Some enum => [VObj [("enumName", VStr (getEnumName schemaName (fst prop)));
                                    ("values", enum)]]
              | None => []
              end)
           processed
    /\ Forall2 (fun old new =>
                  fst new = fst old
                  /\ (exists fields, snd new = VObj fields)
                  /\ (forall k, k <> "type" -> get (snd new) k = get (snd old) k)
                  /\ match enum_values (snd old) with
                     | Some _ => get (snd new) "type"
                                 = Ok (VStr (getEnumName schemaName (fst old)))
                     | None => snd new = snd old
                     end)
               processed updated.
Proof.
  induction 1 as [|[propKey ps] processed [fields Hps] _ IH]; intros created0 updated0.
  - exists [], []. simpl. rewrite !app_nil_r. repeat split. constructor.
  - simpl in Hps. subst ps. rewrite foldM_cons.
    match goal with
    | |- context [bind (?f ?a ?b) _] =>
        let r := eval cbv beta iota zeta in (f a b) in change (f a b) with r
    end.
    assert (Hget : exists enum, get (VObj fields) "enum" = Ok enum)
      by (apply get_of_not_nullish; reflexivity).
    destruct Hget as [enum Henum]. rewrite Henum. cbn [bind].
    destruct (truthy enum && isArray enum) eqn:Hc.
    + destruct (get_set_same fields "type" (VStr (getEnumName schemaName propKey)))
        as [fields' [Hset [Htype Hother]]].
      rewrite Hset. cbn [bind].
      destruct (IH (created0 ++ [VObj [("enumName", VStr (getEnumName schemaName propKey));
                                       ("values", enum)]])%list
                   (updated0 ++ [(propKey, VObj fields')])%list)
        as [created [updated [Hfold [Hcreated Hall]]]].
      eexists. eexists. split; [|split].
      * etransitivity; [exact Hfold|]. rewrite <- !app_assoc. reflexivity.
      * cbn [flat_map]. unfold enum_values at 1. cbn [fst snd]. rewrite Henum, Hc.
        cbn [app]. now rewrite Hcreated.
      * constructor; [|exact Hall]. cbn [fst snd].
        split; [reflexivity|]. split; [now exists fields'|]. split.
        -- intros k Hk. cbn [get]. now rewrite (Hother k Hk).
        -- unfold enum_values. rewrite Henum, Hc. cbn [get]. now rewrite Htype.
    + destruct (IH created0 (updated0 ++ [(propKey, VObj fields)])%list)
        as [created [updated [Hfold [Hcreated Hall]]]].
      exists created. eexists. split; [|split].
      * etransitivity; [exact Hfold|]. rewrite <- !app_assoc. reflexivity.
      * cbn [flat_map]. unfold enum_values at 1. cbn [fst snd]. rewrite Henum, Hc.
        exact Hcreated.
      * constructor; [|exact Hall]. cbn [fst snd].
        split; [reflexivity|]. split; [now exists fields|]. split; [reflexivity|].
        unfold enum_values. now rewrite Henum, Hc.
Qed.

(** X13.  On a map of property records the enum extractor does not fail.
    It keeps the properties and their order; a property with an enum list
    gets the enum's name as its type and keeps its other fields, a property
    without one is untouched; and the created enums are, in order, one per
    property with an enum list, with the list itself as values. *)
Theorem processEnums_spec (schemaName : string) (processed : list (string * value))
  (Hrecords : Forall (fun entry => exists fields, snd entry = VObj fields) processed) :
  exists created updated,
    processEnums schemaName processed = Ok (created, updated)
    /\ created
       = List.flat_map
           (fun prop =>
              match enum_values (snd prop) with
              | Some enum => [VObj [("enumName", VStr (getEnumName schemaName (fst prop)));
                                    ("values", enum)]]
              | None => []
              end)
           processed
    /\ Forall2 (fun old new =>
                  fst new = fst old
                  /\ (exists fields, snd new = VObj fields)
                  /\ (forall k, k <> "type" -> get (snd new) k = get (snd old) k)
                  /\ match enum_values (snd old) with
                     | Some _ => get (snd new) "type"
                                 = Ok (VStr (getEnumName schemaName (fst old)))
                     | None => snd new = snd old
                     end)
               processed updated.
Proof.
  destruct (processEnums_loop schemaName processed Hrecords [] [])
    as [created [updated [Hfold H]]].
  exists created, updated. split; [exact Hfold | exact H].
Qed.

Lemma processEnums_spec_witness :
  exists created updated,
    processEnums "Pet"
      [("status", VObj [("type", VStr "str"); ("enum", VArr [VStr "sold"; VStr "free"])]);
       ("name", VObj [("type", VStr "str"); ("enum", VUndef)])]
    = Ok (created, updated)
    /\ created = [VObj [("enumName", VStr "Pet_status_Enum");
                        ("values", VArr [VStr "sold"; VStr "free"])]].
Proof.
  destruct (processEnums_spec "Pet"
              [("status", VObj [("type", VStr "str"); ("enum", VArr [VStr "sold"; VStr "free"])]);
               ("name", VObj [("type", VStr "str"); ("enum", VUndef)])]
              ltac:(repeat constructor; eexists; reflexivity))
    as [created [updated [H1 [H2 _]]]].
  exists created, updated. split; [exact H1 | exact H2].
Defined.

Lemma add_import_In (imports : list string) (line x : string) :
  In x (add_import imports line) <-> In x imports \/ x = line.
Proof.
  unfold add_import. destruct (existsb (String.eqb line) imports) eqn:E.
  - split; [tauto|]. intros [H | ->]; [exact H|].
    apply existsb_exists in E as [y [Hy Heq]]. apply String.eqb_eq in Heq. now subst.
  - rewrite in_app_iff. simpl. split; intros [H | H]; try tauto.
    + destruct H as [<- | []]. now right.
    + subst. right. now left.
Qed.

Lemma add_import_NoDup (imports : list string) (line : string) :
  NoDup imports -> NoDup (add_import imports line).
Proof.
  intros Hnd. unfold add_import. destruct (existsb (String.eqb line) imports) eqn:E.
  - exact Hnd.
  - apply NoDup_app; [exact Hnd | repeat constructor; tauto|].
    intros a Hin [Heq | []]. subst a.
    assert (existsb (String.eqb line) imports = true).
    { apply existsb_exists. exists line. split; [exact Hin | apply String.eqb_refl]. }
    congruence.
Qed.

(** the imports one type adds, rule by rule *)
Lemma imports_for_type_rules (imports : list string) (type : string) :
  imports_for_type imports type
  = fold_left (fun acc rule =>
                 if existsb (fun marker => Str.includes marker type) (fst rule)
                 then add_import acc (snd rule) else acc)
              import_rules imports.
Proof.
  unfold imports_for_type, import_rules. cbn [fold_left fst snd existsb].
  rewrite !orb_false_r. reflexivity.
Qed.

Lemma import_rules_fold (type : string) (rules : list (list string * string)) :
  forall imports,
    let result :=
      fold_left (fun acc rule =>
                   if existsb (fun marker => Str.includes marker type) (fst rule)
                   then add_import acc (snd rule) else acc)
                rules imports in
    (NoDup imports -> NoDup result)
    /\ forall line,
        In line result
        <-> In line imports
            \/ existsb (fun rule => String.eqb (snd rule) line
                                    && existsb (fun marker => Str.includes marker type)
                                               (fst rule))
                       rules = true.
Proof.
  induction rules as [|[markers import] rules IH]; intros imports; cbn [fold_left].
  - split; [auto|]. intros line. simpl. split; [tauto | intros [H | H]; [exact H | discriminate]].
  - cbn [fst snd existsb].
    destruct (existsb (fun marker => Str.includes marker type) markers) eqn:Em.
    + destruct (IH (add_import imports import)) as [Hnd Hin]. split.
      * intros H. apply Hnd. now apply add_import_NoDup.
      * intros line. rewrite Hin, add_import_In, andb_true_r, orb_true_iff, String.eqb_eq.
        split; intros H; intuition congruence.
    + destruct (IH imports) as [Hnd Hin]. split; [exact Hnd|].
      intros line. rewrite Hin, andb_false_r. simpl. tauto.
Qed.

Lemma imports_for_type_spec (imports : list string) (type : string) :
  (NoDup imports -> NoDup (imports_for_type imports type))
  /\ forall line,
      In line (imports_for_type imports type)
      <-> In line imports \/ needs_import type line = true.
Proof.
  rewrite imports_for_type_rules. apply import_rules_fold.
Qed.

(** X14.  The collected imports are without duplicates, and an import is
    among them exactly when the type of some property is a string that
    contains one of the import's markers. *)
Theorem gatherImportsForProps_spec
  (processedProperties : list (string * value)) (imports : list string)
  (Hcollected : gatherImportsForProps processedProperties = Ok imports) :
  NoDup imports
  /\ forall line,
      In line imports
      <-> exists prop type,
            In prop processedProperties
            /\ get (snd prop) "type" = Ok (VStr type)
            /\ needs_import type line = true.
Proof.
  unfold gatherImportsForProps in Hcollected.
  assert (Hgen : forall (props : list (string * value)) acc out,
             foldM (fun imports prop =>
                      type <- get (snd prop) "type" ;;
                      match type with
                      | VStr t => Ok (imports_for_type imports t)
                      | _ => Ok imports
                      end)
                   props acc = Ok out ->
             (NoDup acc -> NoDup out)
             /\ forall line,
                 In line out
                 <-> In line acc
                     \/ exists prop type,
                          In prop props
                          /\ get (snd prop) "type" = Ok (VStr type)
                          /\ needs_import type line = true).
  { induction props as [|prop props IH]; intros acc out H; simpl in H.
    - injection H as <-. split; [auto|]. intros line. split; [tauto|].
      intros [H | [p [t [[] _]]]]. exact H.
    - bind_inv H.
      assert (Hstep : exists acc',
                 foldM (fun imports (prop : string * value) =>
                          type <- get (snd prop) "type" ;;
                          match type with
                          | VStr t => Ok (imports_for_type imports t)
                          | _ => Ok imports
                          end)
                       props acc' = Ok out
                 /\ (NoDup acc -> NoDup acc')
                 /\ forall line,
                     In line acc'
                     <-> In line acc
                         \/ exists type, x = VStr type /\ needs_import type line = true).
      { destruct x as [| | | |t| |]; cbn [bind] in H;
          try (exists acc; split; [exact H|]; split; [auto|];
               intros line; split; [tauto | intros [? | [? [? _]]]; [assumption | discriminate]]).
        exists (imports_for_type acc t). split; [exact H|].
        destruct (imports_for_type_spec acc t) as [Hnd Hin]. split; [exact Hnd|].
        intros line. rewrite Hin. split.
        - intros [? | ?]; [tauto|]. right. now exists t.
        - intros [? | [t' [[= <-] ?]]]; tauto. }
      destruct Hstep as [acc' [Hfold [Hnd' Hin']]].
      destruct (IH _ _ Hfold) as [Hnd Hin].
      split; [auto|].
      intros line. rewrite Hin, Hin'. split.
      + intros [[? | [t [-> Ht]]] | [p [t [Hp [Hg Ht]]]]].
        * tauto.
        * right. exists prop, t. split; [now left | now split].
        * right. exists p, t. split; [now right | now split].
      + intros [? | [p [t [[<- | Hp] [Hg Ht]]]]].
        * tauto.
        * left. right. exists t. rewrite E in Hg. injection Hg as ->. now split.
        * right. exists p, t. now split. }
  destruct (Hgen _ _ _ Hcollected) as [Hnd Hin].
  split; [apply Hnd; constructor|].
  intros line. rewrite Hin. simpl. tauto.
Qed.

Lemma gatherImportsForProps_spec_witness :
  gatherImportsForProps
    [("ids", VObj [("type", VStr "List[uuid.UUID]")]);
     ("id", VObj [("type", VStr "uuid.UUID")]);
     ("n", VObj [("type", VStr "int")])]
  = Ok ["from typing import List"; "import uuid"]
  /\ NoDup ["from typing import List"; "import uuid"].
Proof.
  split; [reflexivity|].
  exact (proj1 (gatherImportsForProps_spec
                  [("ids", VObj [("type", VStr "List[uuid.UUID]")]);
                   ("id", VObj [("type", VStr "uuid.UUID")]);
                   ("n", VObj [("type", VStr "int")])]
                  ["from typing import List"; "import uuid"] eq_refl)).
Defined.

Lemma gatherImportsForProps_returns (processedProperties : list (string * value)) :
  Forall (fun entry => exists fields, snd entry = VObj fields) processedProperties ->
  exists imports, gatherImportsForProps processedProperties = Ok imports.
Proof.
  unfold gatherImportsForProps. intros H. generalize (@nil string).
  induction H as [|[k e] props [fields He] _ IH]; intros acc; simpl.
  - now exists acc.
  - simpl in He. subst e.
    destruct (get_of_not_nullish (VObj fields) "type" eq_refl) as [ty Hty].
    rewrite Hty. cbn [bind]. destruct ty; cbn [bind]; apply IH.
Qed.

(** X15.  Once the properties of a schema (none of which sanitizes to
    [__proto__]) have been processed, the rest of the entity build cannot
    fail: the enum extractor and the import collector both return, the
    extractor on the processed properties and the collector on what the
    extractor hands on. *)
Theorem entity_build_fails_only_in_properties
  (schemaName : string) (properties : value) (processed : list (string * value))
  (Hplain : Forall (fun prop => sanitizeName (fst prop) <> "__proto__")
                   (spread_entries properties))
  (Hbuilt : buildProcessedProperties properties = Ok processed) :
  exists created updated imports,
    processEnums schemaName processed = Ok (created, updated)
    /\ List.map fst updated = List.map fst processed
    /\ gatherImportsForProps updated = Ok imports.
Proof.
  pose proof (built_entries_records _ _ Hbuilt) as Hrecords.
  destruct (processEnums_loop schemaName processed Hrecords [] [])
    as [created [updated [Hfold [_ Hall]]]].
  assert (Hupdated : Forall (fun entry => exists fields, snd entry = VObj fields) updated
                     /\ List.map fst updated = List.map fst processed).
  { clear - Hall. induction Hall as [|old new olds news [Hk [Hrec _]] _ [IH1 IH2]].
    - split; [constructor | reflexivity].
    - split; [constructor; assumption|]. simpl. now rewrite Hk, IH2. }
  destruct Hupdated as [Hrec Hkeys].
  destruct (gatherImportsForProps_returns updated Hrec) as [imports Himports].
  exists created, updated, imports. split; [exact Hfold|]. now split.
Qed.

Lemma entity_build_fails_only_in_properties_witness :
  exists created updated imports,
    processEnums "Person"
      [("name", VObj [("originalName", VStr "name"); ("name", VStr "name");
                      ("type", VStr "str"); ("default", VStr (quoted "John"));
                      ("example", VUndef); ("regex", VUndef);
                      ("description", VStr EmptyString); ("enum", VUndef)])]
    = Ok (created, updated)
    /\ gatherImportsForProps updated = Ok imports.
Proof.
  destruct (entity_build_fails_only_in_properties "Person"
              (VObj [("name", VObj [("type", VStr "string"); ("default", VStr "John")])])
              _ ltac:(repeat constructor; discriminate) eq_refl)
    as [created [updated [imports [H1 [_ H2]]]]].
  exists created, updated, imports. split; [exact H1 | exact H2].
Defined.

(** ** OperationGrouper: what a group holds *)

Open Scope list_scope.








(** ** EmissionPipeline: where files go, and when none is written *)

Open Scope string_scope.

Lemma writes_only_same {A : Type} (P : string -> Prop) (m : M A) :
  (forall w, written (snd (m w)) = written w) -> writes_only P m.
Proof. intros H w. exists []. rewrite H, app_nil_r. split; [reflexivity | constructor]. Qed.

Lemma writes_only_ret {A : Type} (P : string -> Prop) (a : A) : writes_only P (ret a).
Proof. now apply writes_only_same. Qed.

Lemma writes_only_lift {A : Type} (P : string -> Prop) (r : result A) :
  writes_only P (lift r).
Proof. now apply writes_only_same. Qed.

Lemma writes_only_throw {A : Type} (P : string -> Prop) (e : error) :
  writes_only P (@throw A e).
Proof. now apply writes_only_same. Qed.

Lemma writes_only_logMessage (P : string -> Prop) (level message : string) :
  writes_only P (logMessage level message).
Proof. now apply writes_only_same. Qed.

Lemma writes_only_ensureOutputDir (P : string -> Prop) (E : env) (dirPath : string) :
  writes_only P (ensureOutputDir E dirPath).
Proof.
  apply writes_only_same. intros w. unfold ensureOutputDir.
  destruct (existsb (String.eqb dirPath) (dirs w)); [reflexivity|].
  destruct (mkdir_fault E (dirs w) dirPath); reflexivity.
Qed.

Lemma writes_only_writeFileSync (P : string -> Prop) (E : env) (file content : string) :
  P file -> writes_only P (writeFileSync E file content).
Proof.
  intros HP w. unfold writeFileSync.
  destruct (write_fault E (written w) file content); simpl.
  - exists []. rewrite app_nil_r. split; [reflexivity | constructor].
  - exists [(file, content)]. split; [reflexivity | repeat constructor; exact HP].
Qed.

(** the continuation only matters for the values the first part returns *)
Lemma writes_only_bindM_returned {A B : Type} (P : string -> Prop)
  (m : M A) (k : A -> M B) :
  writes_only P m ->
  (forall a w w', m w = (Ok a, w') -> writes_only P (k a)) ->
  writes_only P (bindM m k).
Proof.
  intros Hm Hk w. unfold bindM.
  destruct (Hm w) as [fs [H1 H2]].
  destruct (m w) as [[a| |] w1] eqn:Hrun; simpl in *.
  - destruct (Hk a w w1 Hrun w1) as [fs' [K1 K2]].
    exists (fs ++ fs')%list. rewrite K1, H1, app_assoc. split; [reflexivity|].
    apply Forall_app. now split.
  - now exists fs.
  - now exists fs.
Qed.

Lemma writes_only_bindM {A B : Type} (P : string -> Prop) (m : M A) (k : A -> M B) :
  writes_only P m -> (forall a, writes_only P (k a)) -> writes_only P (bindM m k).
Proof. intros Hm Hk. apply writes_only_bindM_returned; auto. Qed.

Lemma writes_only_try_catch {A : Type} (P : string -> Prop)
  (body : M A) (handler : error -> M A) :
  writes_only P body -> (forall e, writes_only P (handler e)) ->
  writes_only P (try_catch body handler).
Proof.
  intros Hm Hk w. unfold try_catch.
  destruct (Hm w) as [fs [H1 H2]].
  destruct (body w) as [[a|e|] w1]; simpl in *.
  - now exists fs.
  - destruct (Hk e w1) as [fs' [K1 K2]].
    exists (fs ++ fs')%list. rewrite K1, H1, app_assoc. split; [reflexivity|].
    apply Forall_app. now split.
  - now exists fs.
Qed.

Lemma writes_only_forM {A : Type} (P : string -> Prop) (l : list A) (body : A -> M unit) :
  (forall x, writes_only P (body x)) -> writes_only P (forM l body).
Proof.
  intros Hbody. induction l as [|x l IH]; simpl.
  - apply writes_only_ret.
  - apply writes_only_bindM; auto.
Qed.

Lemma writes_only_report {A : Type} (P : string -> Prop) (what : string) (err : error) :
  writes_only P (@report what A err).
Proof.
  unfold report. apply writes_only_bindM;
    [apply writes_only_logMessage | intros; apply writes_only_throw].
Qed.

Create HintDb writes discriminated.

#[export] Hint Resolve writes_only_ret writes_only_lift writes_only_throw
  writes_only_logMessage writes_only_report writes_only_ensureOutputDir : writes.

(** decompose a pipeline step; [leaf] settles the path of a write, and a
    lookup in a template set known to be empty is resolved on the way *)
Ltac writes_step leaf :=
  first
    [ apply writes_only_bindM; [|intros ?]
    | apply writes_only_try_catch; [|intros ?]
    | apply writes_only_forM; intros ?
    | solve [auto with writes]
    | apply writes_only_writeFileSync; leaf
    | match goal with
      | H : forall n, ?t n = None |- writes_only _ (match ?t ?n with _ => _ end) =>
          rewrite (H n)
      | |- writes_only _ (match ?x with _ => _ end) => destruct x
      | |- writes_only _ (if ?c then _ else _) => destruct c
      end ].

Ltac in_output :=
  unfold under_output; eexists; eexists; split; [|reflexivity]; simpl; tauto.

(** what the loader returned is what the steps after it work with *)
Lemma loaded_templates (E : env) (templates : string -> option template) (w w' : world) :
  try_catch
    (templates <-- lift (loadTemplates E "python-fastapi") ;;
     logMessage "INFO" "Templates loaded successfully." ;;;
     ret templates)
    (report "Failed to load templates") w
  = (Ok templates, w') ->
  loadTemplates E "python-fastapi" = Ok templates.
Proof.
  unfold try_catch, bindM, lift, logMessage, ret, report, throw.
  destruct (loadTemplates E "python-fastapi") as [t|e|]; simpl; try discriminate.
  now intros [= -> _].
Qed.

(** X17.  Every file a run writes lies directly in the output directory or
    in its [models] or [apis] subdirectory (as joined by the path library),
    whatever the description, the templates and the outcome of the run. *)
Theorem generate_writes_under_output
  (E : env) (fuel : nat) (api : value) (outputDir : string) (w : world) :
  exists fs,
    written (snd (generate E fuel api outputDir w)) = (written w ++ fs)%list
    /\ Forall (fun file => under_output E outputDir (fst file)) fs.
Proof.
  revert w. change (writes_only (under_output E outputDir) (generate E fuel api outputDir)).
  unfold generate, generate_steps, generateTopLevel, generateModel, generateRoutes,
    generateAggregatorFile.
  repeat writes_step in_output.
Qed.

(** X18.  If the template loader fails, or loads a template set that holds
    no template, the run writes no file at all, whatever the description:
    a missing template switches its artifact off without an error. *)
Theorem no_template_no_file
  (E : env) (fuel : nat) (api : value) (outputDir : string) (w : world)
  (Hnone : forall templates,
      loadTemplates E "python-fastapi" = Ok templates ->
      forall name, templates name = None) :
  written (snd (generate E fuel api outputDir w)) = written w.
Proof.
  assert (H : writes_only (fun _ => False) (generate E fuel api outputDir)).
  { unfold generate, generate_steps. cbv zeta.
    apply writes_only_bindM; [auto with writes | intros _].
    apply writes_only_try_catch; [|auto with writes].
    do 3 (apply writes_only_bindM; [auto with writes | intros _]).
    apply writes_only_bindM_returned.
    - repeat writes_step fail.
    - intros templates w0 w0' Hrun.
      apply loaded_templates in Hrun. specialize (Hnone templates Hrun).
      unfold generateTopLevel, generateModel, generateRoutes, generateAggregatorFile.
      repeat writes_step fail. }
  destruct (H w) as [fs [Hw Hfs]]. rewrite Hw.
  destruct fs as [|f fs]; [now rewrite app_nil_r|]. now inversion Hfs.
Qed.

Lemma no_template_no_file_witness :
  written (snd (generate
                  (Env Examples.slash_join (fun _ => Ok (fun _ => None))
                       (fun _ _ _ => None) (fun _ _ => None))
                  2 Examples.suite_api "out" Examples.fresh_world))
  = [].
Proof.
  exact (no_template_no_file
           (Env Examples.slash_join (fun _ => Ok (fun _ => None))
                (fun _ _ _ => None) (fun _ _ => None))
           2 Examples.suite_api "out" Examples.fresh_world
           ltac:(intros t [= <-] name; reflexivity)).
Defined.

Lemma ensureOutputDir_returns (E : env) (dirPath : string) (w : world) :
  (forall existing, mkdir_fault E existing dirPath = None) ->
  exists ds, ensureOutputDir E dirPath w = (Ok tt, World ds (written w) (log w)).
Proof.
  intros Hok. unfold ensureOutputDir.
  destruct (existsb (String.eqb dirPath) (dirs w)).
  - exists (dirs w). now destruct w.
  - rewrite Hok. eexists. reflexivity.
Qed.

Lemma bindM_returned {A B : Type} (m : M A) (k : A -> M B) (w w' : world) (a : A) :
  m w = (Ok a, w') -> bindM m k w = k a w'.
Proof. intros H. unfold bindM. now rewrite H. Qed.

Lemma bindM_thrown {A B : Type} (m : M A) (k : A -> M B) (w w' : world) (e : error) :
  m w = (Throw e, w') -> bindM m k w = (Throw e, w').
Proof. intros H. unfold bindM. now rewrite H. Qed.

(** X19.  When the templates cannot be loaded (and the directories can be
    created), the run ends with the loader's error after exactly two
    error-level diagnostics, the loader's and the run's, and has written
    nothing. *)
Theorem template_load_failure
  (E : env) (fuel : nat) (api : value) (outputDir : string) (w : world) (e : error)
  (Hdirs : forall existing dirPath, mkdir_fault E existing dirPath = None)
  (Hload : loadTemplates E "python-fastapi" = Throw e) :
  exists ds,
    generate E fuel api outputDir w
    = (Throw e,
       World ds (written w)
             (log w ++ [("INFO", "Starting generation process...");
                        ("ERROR", ("Failed to load templates: " ++ error_to_string e)%string);
                        ("ERROR", ("Generation failed: " ++ error_to_string e)%string)])%list).
Proof.
  set (w1 := World (dirs w) (written w) (log w ++ [("INFO", "Starting generation process...")])).
  destruct (ensureOutputDir_returns E outputDir w1 (fun ex => Hdirs ex _)) as [ds1 H1].
  destruct (ensureOutputDir_returns E (path_join E outputDir "models")
              (World ds1 (written w1) (log w1)) (fun ex => Hdirs ex _)) as [ds2 H2].
  destruct (ensureOutputDir_returns E (path_join E outputDir "apis")
              (World ds2 (written w1) (log w1)) (fun ex => Hdirs ex _)) as [ds3 H3].
  exists ds3. unfold generate.
  rewrite (bindM_returned (logMessage "INFO" "Starting generation process...") _ w w1 tt
             eq_refl).
  rewrite (reported_failure _ "Generation failed" w1
             (World ds3 (written w)
                    (log w1 ++ [("ERROR", "Failed to load templates: " ++ error_to_string e)]))
             e).
  - simpl. rewrite <- !app_assoc. reflexivity.
  - unfold generate_steps.
    rewrite (bindM_returned _ _ _ _ tt H1). cbv zeta.
    rewrite (bindM_returned _ _ _ _ tt H2).
    rewrite (bindM_returned _ _ _ _ tt H3).
    apply bindM_thrown.
    apply (reported_failure _ "Failed to load templates"
             (World ds3 (written w1) (log w1)) (World ds3 (written w1) (log w1)) e).
    unfold bindM, lift. now rewrite Hload.
Qed.

Lemma template_load_failure_witness :
  exists ds,
    generate (Env Examples.slash_join (fun _ => Throw (Error "Template load failure"))
                  (fun _ _ _ => None) (fun _ _ => None))
             1 (VObj []) "./output" Examples.fresh_world
    = (Throw (Error "Template load failure"),
       World ds []
             [("INFO", "Starting generation process...");
              ("ERROR", "Failed to load templates: Error: Template load failure");
              ("ERROR", "Generation failed: Error: Template load failure")]).
Proof.
  exact (template_load_failure
           (Env Examples.slash_join (fun _ => Throw (Error "Template load failure"))
                (fun _ _ _ => None) (fun _ _ => None))
           1 (VObj []) "./output" Examples.fresh_world (Error "Template load failure")
           (fun _ _ => eq_refl) eq_refl).
Defined.

(** X20.  [generateCode] never rejects a parsed description as invalid.
    For [python-fastapi] it is the generator's run on the parsed
    description.  For every other language it fails before anything is
    created, written or reported: with the registry's error, or, when the
    language is the name of a member every object inherits, with the
    error of calling a [generate] method that is not there.  An error of
    the parser is passed on untouched. *)
Theorem generateCode_dispatch
  (E : env) (parseOpenAPISpec : string -> result value) (fuel : nat)
  (specPath language outputDir : string) (w : world) :
  (forall api, parseOpenAPISpec specPath = Ok api ->
               generateCode E parseOpenAPISpec fuel specPath "python-fastapi" outputDir w
               = generate E fuel api outputDir w)
  /\ (forall api, parseOpenAPISpec specPath = Ok api ->
                  language <> "python-fastapi" ->
                  generateCode E parseOpenAPISpec fuel specPath language outputDir w
                  = (Throw (if existsb (String.eqb language) object_prototype_members
                            then TypeError "generator.generate is not a function"
                            else Error ("No generator found for language "
                                          ++ quoted language)),
                     w))
  /\ (forall e, parseOpenAPISpec specPath = Throw e ->
                generateCode E parseOpenAPISpec fuel specPath language outputDir w
                = (Throw e, w)).
Proof.
  unfold generateCode, bindM, lift, getGenerator, generatorRegistry.
  split; [|split].
  - intros api Hp. rewrite Hp. reflexivity.
  - intros api Hp Hl. rewrite Hp. cbn [validateOpenAPISpec negb assoc].
    assert (Hne : ("python-fastapi" =? language) = false).
    { apply String.eqb_neq. congruence. }
    rewrite Hne.
    destruct (existsb (String.eqb language) object_prototype_members); reflexivity.
  - intros e Hp. rewrite Hp. reflexivity.
Qed.

Lemma generateCode_dispatch_witness :
  generateCode Examples.suite_env (fun _ => Ok Examples.suite_api) 2
               "openapi.yaml" "go-gin" "out" Examples.fresh_world
  = (Throw (Error ("No generator found for language " ++ quoted "go-gin")),
     Examples.fresh_world)
  /\ generateCode Examples.suite_env (fun _ => Ok Examples.suite_api) 2
                  "openapi.yaml" "toString" "out" Examples.fresh_world
     = (Throw (TypeError "generator.generate is not a function"), Examples.fresh_world).
Proof.
  split.
  - exact (proj1 (proj2 (generateCode_dispatch Examples.suite_env
                           (fun _ => Ok Examples.suite_api) 2
                           "openapi.yaml" "go-gin" "out" Examples.fresh_world))
                 Examples.suite_api eq_refl ltac:(discriminate)).
  - exact (proj1 (proj2 (generateCode_dispatch Examples.suite_env
                           (fun _ => Ok Examples.suite_api) 2
                           "openapi.yaml" "toString" "out" Examples.fresh_world))
                 Examples.suite_api eq_refl ltac:(discriminate)).
Defined.

Lemma prefix_append (n t : string) : String.prefix n (n ++ t) = true.
Proof.
  induction n as [|c n IH]; simpl; [now destruct t|].
  destruct (ascii_dec c c); [exact IH | contradiction].
Qed.

Lemma prefix_append_more (n s t : string) :
  String.prefix n s = true -> String.prefix n (s ++ t) = true.
Proof.
  revert s. induction n as [|c n IH]; intros s; simpl.
  - intros _. now destruct (s ++ t).
  - destruct s as [|d s]; [discriminate|]. simpl.
    destruct (ascii_dec c d); [apply IH | discriminate].
Qed.

Lemma includes_append_l (n s t : string) :
  Str.includes n s = true -> Str.includes n (s ++ t) = true.
Proof.
  induction s as [|c s IH].
  - simpl. rewrite orb_false_r. destruct n; [intros _|discriminate].
    destruct t; reflexivity.
  - cbn [Str.includes]. intros H. apply orb_true_iff in H as [H | H].
    + change (String c s ++ t) with (String c (s ++ t)). cbn [Str.includes].
      apply orb_true_iff. left. now apply (prefix_append_more n (String c s) t).
    + change (String c s ++ t) with (String c (s ++ t)). cbn [Str.includes].
      apply orb_true_iff. right. now apply IH.
Qed.

Lemma includes_append_r (n s t : string) :
  Str.includes n t = true -> Str.includes n (s ++ t) = true.
Proof.
  intros H. induction s as [|c s IH]; [exact H|].
  change (String c s ++ t) with (String c (s ++ t)). cbn [Str.includes].
  apply orb_true_iff. now right.
Qed.

Lemma includes_self_append (n t : string) : Str.includes n (n ++ t) = true.
Proof.
  destruct n as [|c n].
  - destruct t; reflexivity.
  - change (String c n ++ t) with (String c (n ++ t)). cbn [Str.includes].
    apply orb_true_iff. left. exact (prefix_append (String c n) t).
Qed.

Lemma str_append_empty_r (s : string) : s ++ EmptyString = s.
Proof. induction s as [|c s IH]; simpl; [reflexivity | now rewrite IH]. Qed.

Lemma includes_refl (n : string) : Str.includes n n = true.
Proof. rewrite <- (str_append_empty_r n) at 2. apply includes_self_append. Qed.

(** the lines appended for the tags contain the line of each tag *)
Lemma lines_include (line : string -> string) (needle : string) (tags : list string) :
  forall content,
    Str.includes needle content = true
    \/ (exists tag, In tag tags /\ needle = line tag) ->
    Str.includes needle (fold_left (fun content tag => content ++ line tag) tags content)
    = true.
Proof.
  induction tags as [|tag tags IH]; intros content H; simpl.
  - destruct H as [H | [tag [[] _]]]. exact H.
  - apply IH. destruct H as [H | [tag' [[<- | Hin] ->]]].
    + left. now apply includes_append_l.
    + left. apply includes_append_r, includes_refl.
    + right. now exists tag'.
Qed.

(** X21.  The aggregator file names every group: for each tag it holds the
    tag's import line and the tag's registration line, with the tag in
    lower case. *)
Theorem aggregator_lists_every_tag (tags : list string) (tag : string)
  (Htag : In tag tags) :
  Str.includes (import_line tag) (aggregatorContent tags) = true
  /\ Str.includes (register_line tag) (aggregatorContent tags) = true.
Proof.
  unfold aggregatorContent. cbv zeta. split.
  - apply (lines_include register_line). left.
    apply includes_append_l.
    apply (lines_include import_line). right. now exists tag.
  - apply (lines_include register_line). right. now exists tag.
Qed.

Lemma aggregator_lists_every_tag_witness :
  Str.includes (import_line "Users") (aggregatorContent ["pets"; "Users"]) = true
  /\ import_line "Users"
     = "from .users import router as users_router" ++ newline.
Proof.
  split; [|reflexivity].
  exact (proj1 (aggregator_lists_every_tag ["pets"; "Users"] "Users"
                  (or_intror (or_introl eq_refl)))).
Defined.
